(** * svgify-react: the icon pipeline of [src/cli.ts]

    A shallow embedding of the name sanitizer, the attribute translator,
    the icon processor, the template generators and the generation
    orchestrator, followed by the properties stated about them.

    Strings are ECMAScript strings: finite sequences of UTF-16 code
    units.  A code unit is a number; no bound is imposed on it, every
    function below treats a number above 0xFFFF like any other
    non-ASCII code unit. *)

From Stdlib Require Import NArith Ascii String DecimalString Bool Lia.
From Stdlib Require Import ZifyBool ZifyN.
From stdpp Require Import base list gmap.

Local Open Scope N_scope.

(** ** Strings *)

Abbreviation cu := N (only parsing).
Abbreviation str := (list N) (only parsing).

(** An ASCII literal as a sequence of code units. *)
Definition js (s : string) : str :=
  map N_of_ascii (list_ascii_of_string s).

Definition HYPHEN : cu := 45.
Definition DQUOTE : cu := 34.
Definition GT : cu := 62.
Definition EQUALS : cu := 61.
Definition NEWLINE : cu := 10.

(** *** Character classes of the regular expressions *)

(** [\s]: WhiteSpace and LineTerminator of ECMAScript. *)
Definition isSpace (c : cu) : bool :=
  (c =? 9) || (c =? 10) || (c =? 11) || (c =? 12) || (c =? 13) ||
  (c =? 32) || (c =? 160) || (c =? 5760) ||
  ((8192 <=? c) && (c <=? 8202)) ||
  (c =? 8232) || (c =? 8233) || (c =? 8239) || (c =? 8287) ||
  (c =? 12288) || (c =? 65279).

Definition isUpperAZ (c : cu) : bool := (65 <=? c) && (c <=? 90).
Definition isLowerAZ (c : cu) : bool := (97 <=? c) && (c <=? 122).
Definition isDigit (c : cu) : bool := (48 <=? c) && (c <=? 57).
Definition isHyphen (c : cu) : bool := c =? HYPHEN.

(** [\w], the class behind [\b]: [[A-Za-z0-9_]]. *)
Definition isWordChar (c : cu) : bool :=
  isUpperAZ c || isLowerAZ c || isDigit c || (c =? 95).

(** [[\s\-._]] *)
Definition isSeparator (c : cu) : bool :=
  isSpace c || (c =? 45) || (c =? 46) || (c =? 95).

(** [[a-zA-Z0-9-]] *)
Definition isNameChar (c : cu) : bool :=
  isLowerAZ c || isUpperAZ c || isDigit c || (c =? 45).

Definition isAscii (c : cu) : bool := c <? 128.

(** *** Case *)

Definition asciiUpper (c : cu) : cu := if isLowerAZ c then c - 32 else c.
Definition asciiLower (c : cu) : cu := if isUpperAZ c then c + 32 else c.

(** Equality of two code units under the [i] flag of a regular expression
    without the [u] flag.  Both sides are canonicalised with the simple
    upper-case mapping, and a non-ASCII unit never canonicalises to an
    ASCII one; every pattern of this program is ASCII, so comparing the
    ASCII upper-case forms is exact. *)
Definition eqCI (a b : cu) : bool := asciiUpper a =? asciiUpper b.

(** [s] starts with [p], code unit by code unit. *)
Fixpoint startsWith (p s : str) : bool :=
  match p, s with
  | [], _ => true
  | _ :: _, [] => false
  | a :: p', b :: s' => (a =? b) && startsWith p' s'
  end.

(** [s] starts with [p] up to letter case. *)
Fixpoint startsWithCI (p s : str) : bool :=
  match p, s with
  | [], _ => true
  | _ :: _, [] => false
  | a :: p', b :: s' => eqCI a b && startsWithCI p' s'
  end.

(** Length of the longest prefix of [s] made of code units in class [p]:
    what a greedy [[p]*] consumes. *)
Fixpoint runLength (p : cu -> bool) (s : str) : nat :=
  match s with
  | [] => 0%nat
  | c :: s' => if p c then S (runLength p s') else 0%nat
  end.

(** ** [String.prototype.replace] with a regular expression

    A [matcher] is a regular expression seen from one position of the
    input: [m prev rest] is the attempt at the position whose preceding
    code unit is [prev] ([None] at index 0) and whose remaining input is
    [rest]; [Some n] is a match of [n] code units.  The preceding code
    unit is all a pattern of this program looks at behind itself ([^]
    and [\b]).  No replacement string of the program contains [$], so
    replacement text is literal. *)
Definition matcher := option cu -> str -> option nat.

(** The [g] flag: scan left to right; a match is replaced and the scan
    resumes after it, an empty match is followed by one copied code
    unit, a position without a match copies its code unit.  [skip]
    counts the code units of the current match still to be consumed. *)
Fixpoint replaceAllFrom (m : matcher) (rep : str) (skip : nat)
    (prev : option cu) (s : str) : str :=
  match s with
  | [] =>
      match skip with
      | O => match m prev [] with Some _ => rep | None => [] end
      | S _ => []
      end
  | c :: s' =>
      match skip with
      | S k => replaceAllFrom m rep k (Some c) s'
      | O =>
          match m prev s with
          | Some (S n) => rep ++ replaceAllFrom m rep n (Some c) s'
          | Some O => rep ++ c :: replaceAllFrom m rep 0 (Some c) s'
          | None => c :: replaceAllFrom m rep 0 (Some c) s'
          end
      end
  end.

Definition replaceAll (m : matcher) (rep s : str) : str :=
  replaceAllFrom m rep 0 None s.

(** Without the [g] flag (and for a string pattern): only the leftmost
    match is replaced. *)
Fixpoint replaceFirstFrom (m : matcher) (rep : str)
    (prev : option cu) (s : str) {struct s} : str :=
  match m prev s with
  | Some n => rep ++ drop n s
  | None =>
      match s with
      | [] => []
      | c :: s' => c :: replaceFirstFrom m rep (Some c) s'
      end
  end.

Definition replaceFirst (m : matcher) (rep s : str) : str :=
  replaceFirstFrom m rep None s.

(** *** The patterns of [sanitizeFileName] *)

(** A string pattern: the literal itself. *)
Definition reLiteral (lit : str) : matcher :=
  fun _ s => if startsWith lit s then Some (length lit) else None.

(** [/[\s\-._]+/] *)
Definition reSeparators : matcher :=
  fun _ s =>
    match runLength isSeparator s with
    | O => None
    | n => Some n
    end.

(** [/[^a-zA-Z0-9-]/] *)
Definition reNotNameChar : matcher :=
  fun _ s =>
    match s with
    | c :: _ => if isNameChar c then None else Some 1%nat
    | [] => None
    end.

(** [/^-+|-+$/]: the first alternative needs index 0; the second needs
    the greedy run of hyphens to end the input (giving hyphens back
    cannot reach the end either). *)
Definition reEdgeHyphens : matcher :=
  fun prev s =>
    let n := runLength isHyphen s in
    match prev, n with
    | None, S _ => Some n
    | _, S _ => if (n =? length s)%nat then Some n else None
    | _, O => None
    end.

(** [/-+/] *)
Definition reHyphens : matcher :=
  fun _ s =>
    match runLength isHyphen s with
    | O => None
    | n => Some n
    end.

(** *** The patterns of [processIcon] *)

(** [/<svg[^>]*>/]: the greedy class stops at the first [>] or at the
    end of input; only in the first case is there a [>] to close the
    match. *)
Definition reSvgOpen : matcher :=
  fun _ s =>
    if startsWith (js "<svg") s then
      let rest := drop 4 s in
      let k := runLength (fun c => negb (c =? GT)) rest in
      if (k <? length rest)%nat then Some (4 + k + 1)%nat else None
    else None.

(** [/<\/svg>/] *)
Definition reSvgClose : matcher := reLiteral (js "</svg>").

Definition notQuote (c : cu) : bool := negb (c =? DQUOTE).

(** What [(?!none|currentColor)] rejects under the [i] flag: a value
    that begins with one of the two words. *)
Definition keepsColor (value : str) : bool :=
  startsWithCI (js "none") value || startsWithCI (js "currentColor") value.

(** [/fill=Q(?!none|currentColor)[^Q]*Q/gi] and the same pattern with
    [stroke] for [fill]; Q stands for the double quote. *)
Definition reColorAttr (name : str) : matcher :=
  fun _ s =>
    let opening := name ++ [EQUALS; DQUOTE] in
    if startsWithCI opening s then
      let value := drop (length opening) s in
      if keepsColor value then None
      else
        let k := runLength notQuote value in
        if (k <? length value)%nat
        then Some (length opening + k + 1)%nat
        else None
    else None.

(** The replacement text of a colour pattern: the attribute set to
    [currentColor]. *)
Definition currentColorAttr (name : str) : str :=
  name ++ [EQUALS; DQUOTE] ++ js "currentColor" ++ [DQUOTE].

(** One of the two colour replacements. *)
Definition colorPass (name : str) (s : str) : str :=
  replaceAll (reColorAttr name) (currentColorAttr name) s.

(** *** The pattern of [convertSvgAttributesToCamelCase] *)

Definition isWordAt (o : option cu) : bool :=
  match o with
  | Some c => isWordChar c
  | None => false
  end.

(** [\b] between the preceding code unit and the next one. *)
Definition wordBoundary (prev : option cu) (s : str) : bool :=
  xorb (isWordAt prev) (isWordAt (head s)).

(** [(?=\s*=)] *)
Definition lookaheadEquals (s : str) : bool :=
  startsWith [EQUALS] (drop (runLength isSpace s) s).

(** [new RegExp(`\\b${escaped kebab}(?=\\s*=)`, 'gi')]: escaping makes
    the attribute name a literal. *)
Definition reAttribute (kebab : str) : matcher :=
  fun prev s =>
    if wordBoundary prev s && startsWithCI kebab s
       && lookaheadEquals (drop (length kebab) s)
    then Some (length kebab)
    else None.

(** ** Constants *)

(** [SVG_ATTR_MAP], in insertion order (the order of [Object.entries]). *)
Definition SVG_ATTR_MAP : list (str * str) :=
  [ (js "clip-path", js "clipPath");
    (js "clip-rule", js "clipRule");
    (js "fill-rule", js "fillRule");
    (js "fill-opacity", js "fillOpacity");
    (js "stroke-width", js "strokeWidth");
    (js "stroke-linecap", js "strokeLinecap");
    (js "stroke-linejoin", js "strokeLinejoin");
    (js "stroke-miterlimit", js "strokeMiterlimit");
    (js "stroke-dasharray", js "strokeDasharray");
    (js "stroke-dashoffset", js "strokeDashoffset");
    (js "stroke-opacity", js "strokeOpacity");
    (js "stop-color", js "stopColor");
    (js "stop-opacity", js "stopOpacity");
    (js "xlink:href", js "xlinkHref");
    (js "xml:space", js "xmlSpace");
    (js "xmlns:xlink", js "xmlnsXlink") ].

(** ** Attribute translator *)

Definition convertSvgAttributesToCamelCase (svgContent : str) : str :=
  foldl (fun result '(kebab, camel) =>
           replaceAll (reAttribute kebab) camel result)
        svgContent SVG_ATTR_MAP.

(** ** Other string operations *)

Definition endsWith (s suffix : str) : bool :=
  (length suffix <=? length s)%nat
  && bool_decide (drop (length s - length suffix) s = suffix).

Definition dropSpaces (s : str) : str := drop (runLength isSpace s) s.

(** [s.trim()] *)
Definition trim (s : str) : str := rev (dropSpaces (rev (dropSpaces s))).

(** [parts.join(sep)] *)
Fixpoint join (sep : str) (parts : list str) : str :=
  match parts with
  | [] => []
  | [p] => p
  | p :: ps => p ++ sep ++ join sep ps
  end.

(** A template literal laid out line by line. *)
Definition lines (ls : list str) : str := join [NEWLINE] ls.

(** A number interpolated into a template. *)
Definition decimal (n : nat) : str :=
  js (DecimalString.NilEmpty.string_of_uint (Nat.to_uint n)).

Definition isEmpty (s : str) : bool :=
  match s with
  | [] => true
  | _ :: _ => false
  end.

(** ** The host

    What the program takes from its environment: the file system, the
    optimiser, and the Unicode case mappings of the string library on
    strings that are not plain ASCII. *)
Record Host := {
  (** the optimiser's configuration object, never inspected here *)
  SVGOConfig : Type;
  (** [DEFAULT_CONFIG.svgoConfig] *)
  defaultSvgoConfig : SVGOConfig;
  (** [path.join] *)
  pathJoin : str -> str -> str;
  (** [fs.readdirSync(dir)], after [ensureDirectoryExists] *)
  readdirSync : str -> list str;
  (** [fs.readFileSync(path, 'utf-8')]; [None] when it throws *)
  readFileSync : str -> option str;
  (** [optimize(content, config).data]; [None] when it throws *)
  optimize : str -> SVGOConfig -> option str;
  (** [toLowerCase] and [toUpperCase] on strings holding a non-ASCII unit *)
  unicodeLower : str -> str;
  unicodeUpper : str -> str;
}.

Section Pipeline.

Variable host : Host.

(** On a string of ASCII code units the case conversions act letter by
    letter on [A-Z] and [a-z]. *)
Definition toLowerCase (s : str) : str :=
  if forallb isAscii s then map asciiLower s else unicodeLower host s.

Definition toUpperCase (s : str) : str :=
  if forallb isAscii s then map asciiUpper s else unicodeUpper host s.

(** ** Name sanitizer *)

Definition sanitizeFileName (filename : str) : str :=
  toLowerCase
    (replaceAll reHyphens (js "-")
       (replaceAll reEdgeHyphens []
          (replaceAll reNotNameChar []
             (replaceAll reSeparators (js "-")
                (replaceFirst (reLiteral (js ".svg")) [] filename))))).

(** [str.split(sep)] for a one-unit separator. *)
Fixpoint split (sep : cu) (s : str) : list str :=
  match s with
  | [] => [[]]
  | c :: s' =>
      if c =? sep then [] :: split sep s'
      else match split sep s' with
           | w :: ws => (c :: w) :: ws
           | [] => [[c]]
           end
  end.

(** [s.charAt(0)] *)
Definition charAt0 (s : str) : str := take 1 s.

(** [s.slice(1)] *)
Definition slice1 (s : str) : str := drop 1 s.

Definition toPascalCase (s : str) : str :=
  concat (map (fun word => toUpperCase (charAt0 word) ++ slice1 word)
              (split HYPHEN s)).

Definition toCamelCase (s : str) : str :=
  let pascal := toPascalCase s in
  toLowerCase (charAt0 pascal) ++ slice1 pascal.

(** ** Types *)

Inductive IconMode := direct | registry | both.

(** [SvgifyConfig]; an optional field that is absent is [None]. *)
Record SvgifyConfig := {
  inputDir : str;
  outputDir : str;
  iconMode : option IconMode;
  typescript : option bool;
  className : option str;
  postGenerate : option str;
  svgoConfig : option (SVGOConfig host);
}.

Record ProcessedIcon := {
  originalFile : str;
  sanitizedName : str;
  componentName : str;
  camelCaseName : str;
  svgContent : str;
  optimizedSvg : str;
}.

(** ** Icon processing *)

(** The first three calls of the chain that extracts the inner markup. *)
Definition stripSvgWrapper (data : str) : str :=
  trim (replaceFirst reSvgClose [] (replaceFirst reSvgOpen [] data)).

(** The last two calls of the chain: the pass for [fill], then the pass
    for [stroke]. *)
Definition normalizeColors (inner : str) : str :=
  colorPass (js "stroke") (colorPass (js "fill") inner).

(** [null] is [None]; an exception raised by the file read or by the
    optimiser reaches the [catch] clause, which returns [null]. *)
Definition processIcon (filename : str) (config : SvgifyConfig)
    : option ProcessedIcon :=
  if negb (endsWith filename (js ".svg")) then None
  else
    let svgPath := pathJoin host (inputDir config) filename in
    match readFileSync host svgPath with
    | None => None
    | Some svgContent =>
        match optimize host svgContent
                (default (defaultSvgoConfig host) (svgoConfig config)) with
        | None => None
        | Some data =>
            let sanitizedName := sanitizeFileName filename in
            if isEmpty sanitizedName then None
            else
              let componentName := toPascalCase sanitizedName ++ js "Icon" in
              let camelCaseName := toCamelCase sanitizedName in
              let optimizedSvg :=
                convertSvgAttributesToCamelCase
                  (normalizeColors (stripSvgWrapper data)) in
              Some {| originalFile := filename;
                      sanitizedName := sanitizedName;
                      componentName := componentName;
                      camelCaseName := camelCaseName;
                      svgContent := svgContent;
                      optimizedSvg := optimizedSvg |}
        end
    end.

(** ** Template generators *)

(** Truthiness of [config.typescript]. *)
Definition isTS (config : SvgifyConfig) : bool :=
  default false (typescript config).

Definition getFileExtension (typescript : bool) : str :=
  if typescript then js "tsx" else js "jsx".

(** [config.className || 'icon'] *)
Definition baseClassName (config : SvgifyConfig) : str :=
  match className config with
  | Some (c :: s) => c :: s
  | _ => js "icon"
  end.

Definition generateIconComponent (icon : ProcessedIcon)
    (config : SvgifyConfig) : str :=
  let ts := isTS config in
  lines
    [ js "// Auto-generated component - DO NOT EDIT";
      (if ts then js "import type { SVGProps } from 'react';" else []);
      [];
      (if ts then js "export " else []) ++ js "interface IconProps extends "
        ++ (if ts then js "SVGProps<SVGSVGElement>"
            else js "React.SVGProps<SVGSVGElement>") ++ js " {";
      js "  size?: number | string;";
      js "  color?: string;";
      js "}";
      [];
      js "/**";
      js " * " ++ componentName icon;
      js " * Original file: " ++ originalFile icon;
      js " */";
      js "export const " ++ componentName icon
        ++ (if ts then js ": React.FC<IconProps>" else []) ++ js " = ({ ";
      js "  size,";
      js "  width,";
      js "  height,";
      js "  color = 'currentColor',";
      js "  className = '',";
      js "  style,";
      js "  ...props ";
      js "}) => {";
      js "  const w = size || width || 20;";
      js "  const h = size || height || width || 20;";
      js "  const combinedClassName = `" ++ baseClassName config
        ++ js " ${className}`.trim();";
      js "  ";
      js "  return (";
      js "    <svg";
      js "      width={w}";
      js "      height={h}";
      js "      viewBox=" ++ [DQUOTE] ++ js "0 0 24 24" ++ [DQUOTE];
      js "      fill={color}";
      js "      className={combinedClassName}";
      js "      style={{ color, ...style }}";
      js "      {...props}";
      js "    >";
      js "      " ++ optimizedSvg icon;
      js "    </svg>";
      js "  );";
      js "};";
      [];
      componentName icon ++ js ".displayName = '" ++ componentName icon
        ++ js "';";
      [];
      js "export default " ++ componentName icon ++ js ";";
      [] ].

(** One line of the [import] block of the registry. *)
Definition importLine (icon : ProcessedIcon) : str :=
  js "import " ++ componentName icon ++ js " from './" ++ componentName icon
    ++ js "';".

(** One line of the [iconNames] array. *)
Definition nameLine (name : str) : str := js "  '" ++ name ++ js "',".

(** One property of the [iconComponents] object literal. *)
Definition entryLine (icon : ProcessedIcon) : str :=
  js "  '" ++ camelCaseName icon ++ js "': " ++ componentName icon ++ js ",".

Definition generateIconRegistry (icons : list ProcessedIcon)
    (config : SvgifyConfig) : str :=
  let ts := isTS config in
  let iconNames := map camelCaseName icons in
  lines
    [ js "// Auto-generated file - DO NOT EDIT";
      (if ts then js "import type { FC } from 'react';"
       else js "import { FC } from 'react';");
      [];
      js "// Import all icons";
      join [NEWLINE] (map importLine icons);
      [];
      js "export const iconNames = [";
      join [NEWLINE] (map nameLine iconNames);
      js "]" ++ (if ts then js " as const" else []) ++ js ";";
      [];
      (if ts then js "export type IconName = typeof iconNames[number];"
       else []);
      [];
      js "const iconComponents"
        ++ (if ts then js ": Record<string, FC<any>>" else []) ++ js " = {";
      join [NEWLINE] (map entryLine icons);
      js "};";
      [];
      js "export function getIconComponent(name"
        ++ (if ts then js ": string" else []) ++ js ")"
        ++ (if ts then js ": FC<any> | undefined" else []) ++ js " {";
      js "  return iconComponents[name];";
      js "}";
      [];
      js "export function hasIcon(name"
        ++ (if ts then js ": string" else []) ++ js ")"
        ++ (if ts then js ": boolean" else []) ++ js " {";
      js "  return name in iconComponents;";
      js "}";
      [];
      js "export function getAllIconNames()"
        ++ (if ts then js ": string[]" else []) ++ js " {";
      js "  return Object.keys(iconComponents);";
      js "}";
      [] ].

Definition generateIconWrapper (config : SvgifyConfig) : str :=
  let ts := isTS config in
  lines
    [ js "// Auto-generated file - DO NOT EDIT";
      (if ts then js "import type { SVGProps } from 'react';" else []);
      js "import { getIconComponent } from './IconRegistry';";
      (if ts then js "import type { IconName } from './IconRegistry';"
       else []);
      [];
      (if ts then js "export " else []) ++ js "interface IconProps extends "
        ++ (if ts then js "SVGProps<SVGSVGElement>"
            else js "React.SVGProps<SVGSVGElement>") ++ js " {";
      js "  icon" ++ (if ts then js ": IconName" else []) ++ js ";";
      js "  size?: number | string;";
      js "  color?: string;";
      js "}";
      [];
      js "export const Icon"
        ++ (if ts then js ": React.FC<IconProps>" else []) ++ js " = ({ ";
      js "  icon,";
      js "  size,";
      js "  width,";
      js "  height,";
      js "  color = 'currentColor',";
      js "  className = '',";
      js "  style,";
      js "  ...props ";
      js "}) => {";
      js "  const IconComponent = getIconComponent(icon);";
      js "  ";
      js "  if (!IconComponent) {";
      js "    console.warn(`Icon " ++ [DQUOTE] ++ js "${icon}" ++ [DQUOTE]
        ++ js " not found`);";
      js "    return null;";
      js "  }";
      [];
      js "  const w = size || width || 20;";
      js "  const h = size || height || width || 20;";
      js "  const combinedClassName = `" ++ baseClassName config
        ++ js " ${className}`.trim();";
      [];
      js "  return (";
      js "    <IconComponent";
      js "      width={w}";
      js "      height={h}";
      js "      color={color}";
      js "      className={combinedClassName}";
      js "      style={{ color, ...style }}";
      js "      {...props}";
      js "    />";
      js "  );";
      js "};";
      [];
      js "Icon.displayName = 'Icon';";
      [] ].

(** [config.iconMode || 'both'] *)
Definition modeOf (config : SvgifyConfig) : IconMode :=
  default both (iconMode config).

Definition includesRegistry (mode : IconMode) : bool :=
  match mode with
  | registry | both => true
  | direct => false
  end.

Definition includesDirect (mode : IconMode) : bool :=
  match mode with
  | direct | both => true
  | registry => false
  end.

(** The export group of the registry and of the wrapper. *)
Definition registryExports : str :=
  js "// Registry exports" ++ [NEWLINE]
  ++ js "export { Icon } from './Icon';" ++ [NEWLINE]
  ++ js "export type { IconProps } from './Icon';" ++ [NEWLINE]
  ++ js "export { iconNames, getIconComponent, hasIcon, getAllIconNames } from './IconRegistry';"
  ++ [NEWLINE]
  ++ js "export type { IconName } from './IconRegistry';"
  ++ [NEWLINE; NEWLINE].

(** One line of the direct export group. *)
Definition exportLine (icon : ProcessedIcon) : str :=
  js "export { default as " ++ componentName icon ++ js " } from './"
    ++ componentName icon ++ js "';".

(** The export group of the icon components. *)
Definition directExports (icons : list ProcessedIcon) : str :=
  js "// Direct component exports" ++ [NEWLINE]
  ++ join [NEWLINE] (map exportLine icons)
  ++ [NEWLINE; NEWLINE] ++ js "// Total icons: " ++ decimal (length icons).

Definition generateIndexFile (icons : list ProcessedIcon)
    (config : SvgifyConfig) : str :=
  let mode := modeOf config in
  let exports := [] in
  let exports :=
    if includesRegistry mode then exports ++ registryExports else exports in
  let exports :=
    if includesDirect mode then exports ++ directExports icons
    else exports in
  js "// Auto-generated file - DO NOT EDIT" ++ [NEWLINE] ++ exports
    ++ [NEWLINE].

(** ** Generation orchestrator *)

(** [{ ...DEFAULT_CONFIG, ...userConfig }]: a field the user gives wins,
    an absent one takes the default. *)
Definition mergeDefaults (userConfig : SvgifyConfig) : SvgifyConfig :=
  {| inputDir := inputDir userConfig;
     outputDir := outputDir userConfig;
     iconMode := Some (default both (iconMode userConfig));
     typescript := Some (default true (typescript userConfig));
     className := Some (default (js "icon") (className userConfig));
     postGenerate := Some (default [] (postGenerate userConfig));
     svgoConfig :=
       Some (default (defaultSvgoConfig host) (svgoConfig userConfig)) |}.

(** The loop over the discovered files: a result is pushed, [null] is
    passed over, and the loop goes on to the next file either way. *)
Definition processAll (svgFiles : list str) (config : SvgifyConfig)
    : list ProcessedIcon :=
  foldl (fun processedIcons file =>
           match processIcon file config with
           | Some result => processedIcons ++ [result]
           | None => processedIcons
           end)
        [] svgFiles.

(** A call of [fs.writeFileSync]: the path and the data. *)
Definition Write := (str * str)%type.

(** The calls of [fs.writeFileSync], in the order they are made. *)
Definition emit (processedIcons : list ProcessedIcon)
    (config : SvgifyConfig) : list Write :=
  let ext := getFileExtension (isTS config) in
  let mode := modeOf config in
  map (fun icon =>
         (pathJoin host (outputDir config)
            (componentName icon ++ js "." ++ ext),
          generateIconComponent icon config))
      processedIcons
  ++ (if includesRegistry mode then
        [ (pathJoin host (outputDir config) (js "IconRegistry." ++ ext),
           generateIconRegistry processedIcons config);
          (pathJoin host (outputDir config) (js "Icon." ++ ext),
           generateIconWrapper config) ]
      else [])
  ++ [ (pathJoin host (outputDir config)
          (js "index."
           ++ (if bool_decide (ext = js "tsx") then js "ts" else js "js")),
        generateIndexFile processedIcons config) ].

(** How a run ends.  Console output is not part of the model. *)
Inductive Outcome :=
  (** the configuration error is thrown *)
  | ConfigurationError
  (** [process.exit(1)]: no [.svg] entry in the input directory *)
  | NoSvgFiles
  (** [process.exit(1)]: every file was skipped *)
  | NoIconProcessed
  (** the files were written, then the post-generate command, if any,
      was run; its failure is caught *)
  | Completed (writes : list Write) (command : option str).

Definition generate (userConfig : SvgifyConfig) : Outcome :=
  if isEmpty (inputDir userConfig) || isEmpty (outputDir userConfig)
  then ConfigurationError
  else
    let config := mergeDefaults userConfig in
    let files := readdirSync host (inputDir config) in
    let svgFiles := List.filter (fun file => endsWith file (js ".svg")) files in
    if (length svgFiles =? 0)%nat then NoSvgFiles
    else
      let processedIcons := processAll svgFiles config in
      if (length processedIcons =? 0)%nat then NoIconProcessed
      else
        Completed (emit processedIcons config)
          (match postGenerate config with
           | Some (c :: s) => Some (c :: s)
           | _ => None
           end).

(** ** The generated modules at load time *)



End Pipeline.

(** ** Command line *)

Definition CONFIG_FILE_NAME : str := js "svgify.config.json".

(** What the command line takes from its environment besides the host
    of the pipeline. *)
Record CliHost (host : Host) := {
  (** [process.cwd()] *)
  cwd : str;
  (** [fs.existsSync] *)
  existsSync : str -> bool;
  (** [JSON.parse(content) as SvgifyConfig], the content taken to have
      the declared type; [None] when the parser throws, or gives a value
      whose fields cannot be read; a required field that is missing
      reads as the empty string, which is falsy like it *)
  jsonParse : str -> option (SvgifyConfig host);
}.

Arguments cwd {host}.
Arguments existsSync {host}.
Arguments jsonParse {host}.

(** [null] is [None]; messages on the console are not part of the
    model. *)
Definition loadConfig (host : Host) (cli : CliHost host)
    : option (SvgifyConfig host) :=
  let configPath := pathJoin host (cwd cli) CONFIG_FILE_NAME in
  if negb (existsSync cli configPath) then None
  else
    match readFileSync host configPath with
    | None => None
    | Some configContent =>
        match jsonParse cli configContent with
        | None => None
        | Some config =>
            if isEmpty (inputDir host config)
               || isEmpty (outputDir host config)
            then None
            else Some config
        end
    end.

(** How the command ends: [process.exit(1)], reached in [main] or in
    [generate], or the return of [main].  The calls of the file system
    in [generate] are those of the host, which do not throw. *)
Inductive Exit :=
  | ExitOne
  | Returned (writes : list Write) (command : option str).

Definition main (host : Host) (cli : CliHost host) : Exit :=
  match loadConfig host cli with
  | None => ExitOne
  | Some config =>
      match generate host config with
      | ConfigurationError => ExitOne
      | NoSvgFiles => ExitOne
      | NoIconProcessed => ExitOne
      | Completed writes command => Returned writes command
      end
  end.

(** * Definitions for the statements and the proofs *)

(** ** Sanitized names *)

(** [[a-z0-9-]] *)
Definition isLowerNameChar (c : cu) : bool :=
  isLowerAZ c || isDigit c || isHyphen c.

(** The code unit that precedes the position reached after [n] more code
    units of [s]. *)
Fixpoint prevAfter (n : nat) (prev : option cu) (s : str) : option cu :=
  match n, s with
  | S k, c :: s' => prevAfter k (Some c) s'
  | _, _ => prev
  end.

(** What [/^-+|-+$/g] leaves of an input scanned from an inner position:
    everything but the hyphens that end it. *)
Fixpoint stripTrailing (s : str) : str :=
  match s with
  | [] => []
  | c :: s' =>
      if isHyphen c && forallb isHyphen s' then [] else c :: stripTrailing s'
  end.

(** The shape of a name: how it starts, how it ends, whether two
    hyphens meet. *)
Definition startsHyphen (s : str) : bool :=
  match s with
  | c :: _ => isHyphen c
  | [] => false
  end.

(** What [/-+/g] leaves: of each run of hyphens, one. *)
Fixpoint collapseHyphens (s : str) : str :=
  match s with
  | [] => []
  | c :: s' =>
      if isHyphen c && startsHyphen s' then collapseHyphens s'
      else c :: collapseHyphens s'
  end.

Fixpoint endsHyphen (s : str) : bool :=
  match s with
  | [] => false
  | c :: s' => if isEmpty s' then isHyphen c else endsHyphen s'
  end.

Fixpoint doubleHyphen (s : str) : bool :=
  match s with
  | [] => false
  | c :: s' => (isHyphen c && startsHyphen s') || doubleHyphen s'
  end.

(** The input of the final [toLowerCase]. *)
Definition beforeLowerCase (filename : str) : str :=
  replaceAll reHyphens (js "-")
    (replaceAll reEdgeHyphens []
       (replaceAll reNotNameChar []
          (replaceAll reSeparators (js "-")
             (replaceFirst (reLiteral (js ".svg")) [] filename)))).

(** ** A host to run the pipeline on

    One directory listing, file contents given by path, an optimiser
    that returns its input, paths joined with a slash. *)
Definition exampleHost (listing : list str) (contents : str -> option str)
    : Host :=
  {| SVGOConfig := unit;
     defaultSvgoConfig := tt;
     pathJoin := fun dir file => dir ++ js "/" ++ file;
     readdirSync := fun _ => listing;
     readFileSync := contents;
     optimize := fun content _ => Some content;
     unicodeLower := fun s => s;
     unicodeUpper := fun s => s |}.

(** The configuration of the README's quick start. *)
Definition exampleConfig (h : Host) : SvgifyConfig h :=
  {| inputDir := js "./raw-icons";
     outputDir := js "./src/icons";
     iconMode := None;
     typescript := None;
     className := None;
     postGenerate := None;
     svgoConfig := None |}.

(** ** The wrapper of the optimised markup *)

(** The wrapper removal as the specification words it: the first opening
    tag and the last closing tag are removed. *)
Fixpoint removeLastClose (s : str) : str :=
  match s with
  | [] => []
  | c :: s' =>
      if startsWith (js "</svg>") s
         && bool_decide (replaceFirst reSvgClose [] s' = s')
      then drop 6 s
      else c :: removeLastClose s'
  end.

Definition stripOuterTags (data : str) : str :=
  trim (removeLastClose (replaceFirst reSvgOpen [] data)).

(** An optimiser output with a nested [svg] element. *)
Definition nestedSvg : str := js "<svg><svg><path/></svg><circle/></svg>".

(** ** File names and generated files *)

(** A suffix that is [.svg] in another letter case, [.SVG] for one. *)
Definition isCaseVariant (ext : str) : bool :=
  (length ext =? 4)%nat && startsWithCI (js ".svg") ext
  && negb (bool_decide (ext = js ".svg")).


(** The file name of a component, of the registry, of the wrapper and of
    the index. *)
Definition componentFile (ext : list N) (icon : ProcessedIcon) : list N :=
  componentName icon ++ js "." ++ ext.

Definition indexFile (ext : list N) : list N :=
  js "index." ++ (if bool_decide (ext = js "tsx") then js "ts" else js "js").

(** Two files of one sanitized name. *)
Definition collidingHost : Host :=
  exampleHost [js "user-icon.svg"; js "user_icon.svg"]
    (fun path =>
       if bool_decide (path = js "./raw-icons/user-icon.svg")
       then Some (js "<svg><path/></svg>")
       else Some (js "<svg><circle/></svg>")).

Definition userIcon1 : ProcessedIcon :=
  {| originalFile := js "user-icon.svg";
     sanitizedName := js "user-icon";
     componentName := js "UserIconIcon";
     camelCaseName := js "userIcon";
     svgContent := js "<svg><path/></svg>";
     optimizedSvg := js "<path/>" |}.

Definition userIcon2 : ProcessedIcon :=
  {| originalFile := js "user_icon.svg";
     sanitizedName := js "user-icon";
     componentName := js "UserIconIcon";
     camelCaseName := js "userIcon";
     svgContent := js "<svg><circle/></svg>";
     optimizedSvg := js "<circle/>" |}.

(** Two [.svg] files of different names and a file that is not one. *)
Definition twoIconsHost : Host :=
  exampleHost [js "home.svg"; js "notes.txt"; js "arrow-left.svg"]
    (fun _ => Some (js "<svg><path/></svg>")).

Definition writesOf (outcome : Outcome) : list Write :=
  match outcome with
  | Completed writes _ => writes
  | _ => []
  end.

(** ** Matches of the attribute patterns *)

(** A code unit that [(?=\s*=)] accepts first. *)
Definition stopUnit (c : N) : bool := isSpace c || (c =? EQUALS).

Definition plainUnits (s : list N) : bool :=
  forallb (fun c => negb (stopUnit c)) s.

(** The attribute name followed by its lookahead, without the word
    boundary. *)
Definition patternAt (kebab s : list N) : bool :=
  startsWithCI kebab s && lookaheadEquals (drop (length kebab) s).

(** There is a match of the attribute's pattern somewhere in [s]. *)
Fixpoint occurs (kebab : list N) (prev : option N) (s : list N) : bool :=
  match s with
  | [] => false
  | c :: s' =>
      match reAttribute kebab prev s with
      | Some _ => true
      | None => occurs kebab (Some c) s'
      end
  end.

(** Equality up to letter case. *)
Definition equalCI (a b : list N) : bool :=
  (length a =? length b)%nat && startsWithCI a b.

(** No suffix of [a] is [b] up to letter case. *)
Fixpoint noSuffixIs (a b : list N) : bool :=
  negb (equalCI a b)
  && match a with
     | [] => true
     | _ :: a' => noSuffixIs a' b
     end.

(** The scan of one entry of [SVG_ATTR_MAP] from an inner position. *)
Definition pass (kebab camel : list N) (prev : option N) (s : list N)
    : list N :=
  replaceAllFrom (reAttribute kebab) camel 0 prev s.

(** What the proofs need of an entry, against every name of the table. *)
Definition entryOK (entry : list N * list N) : bool :=
  plainUnits entry.1 && plainUnits entry.2
  && negb (isEmpty entry.1) && negb (isEmpty entry.2)
  && forallb (fun other : list N * list N =>
                noSuffixIs other.1 entry.2 && noSuffixIs entry.2 other.1)
             SVG_ATTR_MAP.

(** One iteration of [forEach]. *)
Definition translateEntry (result : list N) (entry : list N * list N)
    : list N :=
  replaceAll (reAttribute entry.1) entry.2 result.

(** The attribute name occurs in [s], in any letter case. *)
Fixpoint mentions (kebab s : list N) : bool :=
  startsWithCI kebab s
  || match s with
     | [] => false
     | _ :: s' => mentions kebab s'
     end.

(** ** Matches of the colour patterns *)

(** The opening of a colour attribute: the name, [=] and the quote. *)
Definition opening (name : list N) : list N := name ++ [EQUALS; DQUOTE].

(** There is a match of the colour pattern of [name] somewhere in [s]. *)
Fixpoint occursColor (name s : list N) : bool :=
  match s with
  | [] => false
  | _ :: s' =>
      match reColorAttr name None s with
      | Some _ => true
      | None => occursColor name s'
      end
  end.

Definition hasQuote (s : list N) : bool := existsb (fun c => c =? DQUOTE) s.

(** No code unit of [p] is [h] up to letter case. *)
Definition avoids (h : N) (p : list N) : bool :=
  forallb (fun c => negb (eqCI h c)) p.

(** [p] and [x] differ, up to letter case, at a position both have. *)
Fixpoint mismatch (p x : list N) : bool :=
  match p, x with
  | a :: p', b :: x' => negb (eqCI a b) || mismatch p' x'
  | _, _ => false
  end.

(** The pattern of [name] fails at the start of [x] whatever follows
    [x]. *)
Definition blockedAt (name x : list N) : bool :=
  mismatch (opening name) x
  || (startsWithCI (opening name) x
      && keepsColor (drop (length (opening name)) x)).

(** The pattern of [name] fails at every position of [x] whatever
    follows [x]. *)
Fixpoint allBlocked (name x : list N) : bool :=
  match x with
  | [] => true
  | _ :: x' => blockedAt name x && allBlocked name x'
  end.

Definition colorNames : list (list N) := [js "fill"; js "stroke"].


(** ** Letters and digits of a name *)

(** [[a-zA-Z0-9]] *)
Definition isAlnum (c : cu) : bool := isLowerAZ c || isUpperAZ c || isDigit c.

(** The letters and digits of [s], in order. *)
Definition alnums (s : str) : str := List.filter isAlnum s.

(** The calls of [sanitizeFileName] after the first. *)
Definition hyphenate (host : Host) (s : str) : str :=
  toLowerCase host
    (replaceAll reHyphens (js "-")
       (replaceAll reEdgeHyphens []
          (replaceAll reNotNameChar []
             (replaceAll reSeparators (js "-") s)))).

(** [s.includes(lit)] *)
Fixpoint includes (lit s : str) : bool :=
  startsWith lit s
  || match s with
     | [] => false
     | _ :: s' => includes lit s'
     end.

(** No code unit of [s] is [c]. *)
Definition lacks (c : cu) (s : str) : bool :=
  forallb (fun d => negb (d =? c)) s.

(** ** Words of a name *)

(** The body of the [map] in [toPascalCase]. *)
Definition capitalize (host : Host) (word : str) : str :=
  toUpperCase host (charAt0 word) ++ slice1 word.

(** The words of [s] joined as [toPascalCase] joins them, the first one
    left as it is. *)
Definition joinWords (host : Host) (s : str) : str :=
  match split HYPHEN s with
  | w :: ws => w ++ concat (map (capitalize host) ws)
  | [] => []
  end.

Definition notHyphen (c : cu) : bool := negb (isHyphen c).

(** ** Runs *)

(** [processIcon] returns a record. *)
Definition isProcessed (host : Host) (config : SvgifyConfig host)
    (file : str) : bool :=
  match processIcon host file config with
  | Some _ => true
  | None => false
  end.

(** The [.svg] entries of the input directory. *)
Definition svgFilesOf (host : Host) (config : SvgifyConfig host) : list str :=
  List.filter (fun file => endsWith file (js ".svg"))
    (readdirSync host (inputDir host config)).

(** A file name of the output: letters and digits, a dot, an extension. *)
Definition plainFileName (name : str) : Prop :=
  exists base ext,
    name = base ++ js "." ++ ext /\ forallb isAlnum base = true
    /\ In ext [js "tsx"; js "jsx"; js "ts"; js "js"].

(** The configuration of the quick start, in mode [registry]. *)
Definition registryConfig (h : Host) : SvgifyConfig h :=
  {| inputDir := js "./raw-icons";
     outputDir := js "./src/icons";
     iconMode := Some registry;
     typescript := None;
     className := None;
     postGenerate := None;
     svgoConfig := None |}.

(** ** White space at the ends *)

Definition startsSpace (s : str) : bool :=
  match s with
  | c :: _ => isSpace c
  | [] => false
  end.

Definition endsSpace (s : str) : bool := startsSpace (rev s).

(** ** The command line in a project *)

(** A project whose configuration file is that of the quick start. *)
Definition exampleCli (h : Host) : CliHost h :=
  {| cwd := js "/project";
     existsSync := fun _ => true;
     jsonParse := fun _ => Some (exampleConfig h) |}.

(** ** Colours under the attribute translation *)

(** [k] differs from every end of [w], up to letter case, at a position
    both have: no text that starts with [w] holds the start of a match of
    [k] in its first [length w] positions. *)
Fixpoint allMismatch (k w : str) : bool :=
  match w with
  | [] => true
  | _ :: w' => mismatch k w && allMismatch k w'
  end.

(** What the proofs need of an entry of the table against a colour
    name. *)
Definition entryColorOK (name : str) (entry : str * str) : bool :=
  match entry.1, entry.2, name with
  | h :: _, h' :: _, _ :: name' =>
      eqCI h h'
      && avoids h (name' ++ [EQUALS; DQUOTE])
      && allMismatch entry.1 (js "none")
      && allMismatch entry.1 (js "currentColor")
      && forallb notQuote entry.2
      && plainUnits entry.1 && plainUnits entry.2 && plainUnits name
      && noSuffixIs entry.2 name
  | _, _, _ => false
  end.

(** The configuration of the quick start, for JavaScript output. *)
Definition javascriptConfig (h : Host) : SvgifyConfig h :=
  {| inputDir := js "./raw-icons";
     outputDir := js "./src/icons";
     iconMode := None;
     typescript := Some false;
     className := None;
     postGenerate := None;
     svgoConfig := None |}.

(** * Properties *)

(** ** Code unit classes *)

Ltac unfold_classes :=
  unfold isNameChar, isSeparator, isWordChar, isSpace, isHyphen, isAscii,
    eqCI, asciiLower, asciiUpper, isDigit, isLowerAZ, isUpperAZ,
    HYPHEN, DQUOTE, GT, EQUALS, NEWLINE in *.

(** Decides a statement about the classes of a code unit by the
    arithmetic of its number. *)
Ltac cu_lia :=
  unfold_classes;
  repeat match goal with
         | |- context [if ?b then _ else _] => destruct b eqn:?
         | H : context [if ?b then _ else _] |- _ => destruct b eqn:?
         end;
  lia.

Lemma nameChar_ascii c : isNameChar c = true -> isAscii c = true.
Proof. cu_lia. Qed.

Lemma nameChar_lower c :
  isNameChar c = true -> isLowerNameChar (asciiLower c) = true.
Proof. unfold isLowerNameChar. cu_lia. Qed.

Lemma asciiLower_hyphen c : isHyphen (asciiLower c) = isHyphen c.
Proof. cu_lia. Qed.

Lemma lowerNameChar_nameChar c :
  isLowerNameChar c = true -> isNameChar c = true.
Proof. unfold isLowerNameChar. cu_lia. Qed.

Lemma lowerNameChar_fixed c : isLowerNameChar c = true -> asciiLower c = c.
Proof. unfold isLowerNameChar. cu_lia. Qed.

Lemma lowerNameChar_separator c :
  isLowerNameChar c = true -> isSeparator c = isHyphen c.
Proof. unfold isLowerNameChar. cu_lia. Qed.

Lemma lowerNameChar_not_dot c : isLowerNameChar c = true -> (c =? 46) = false.
Proof. unfold isLowerNameChar. cu_lia. Qed.

Lemma isHyphen_eq c : isHyphen c = true -> c = HYPHEN.
Proof. cu_lia. Qed.

(** ** The scan of a global replacement *)

Lemma prevAfter_Some n c s : exists d, prevAfter n (Some c) s = Some d.
Proof.
  revert c s; induction n as [|n IH]; intros c s; simpl.
  - eauto.
  - destruct s as [|d s]; eauto.
Qed.

(** Consuming the rest of a match brings the scan to the position after
    it. *)
Lemma replaceAllFrom_skip m rep n prev s :
  (n <= length s)%nat ->
  replaceAllFrom m rep n prev s
  = replaceAllFrom m rep 0 (prevAfter n prev s) (drop n s).
Proof.
  revert prev s; induction n as [|n IH]; intros prev s Hn.
  - destruct s; reflexivity.
  - destruct s as [|c s]; simpl in Hn; [lia|].
    simpl. apply IH. lia.
Qed.

(** The scan at a position holding a code unit, when every match lies
    within the input. *)
Lemma replaceAllFrom_cons m rep prev c s :
  replaceAllFrom m rep 0 prev (c :: s)
  = match m prev (c :: s) with
    | Some (S n) => rep ++ replaceAllFrom m rep n (Some c) s
    | Some O => rep ++ c :: replaceAllFrom m rep 0 (Some c) s
    | None => c :: replaceAllFrom m rep 0 (Some c) s
    end.
Proof. reflexivity. Qed.

Lemma runLength_le p s : (runLength p s <= length s)%nat.
Proof. induction s as [|c s IH]; simpl; [lia|]. destruct (p c); simpl; lia. Qed.

Lemma runLength_all p s : runLength p s = length s <-> forallb p s = true.
Proof.
  induction s as [|c s IH]; simpl; [tauto|].
  pose proof (runLength_le p s).
  destruct (p c); simpl; [|split; [lia | discriminate]].
  rewrite <- IH. lia.
Qed.

(** After the run, the input is over or continues outside the class. *)
Lemma runLength_stop p s :
  match drop (runLength p s) s with
  | [] => True
  | d :: _ => p d = false
  end.
Proof.
  induction s as [|c s IH]; simpl; [exact I|].
  destruct (p c) eqn:E; simpl; [exact IH | exact E].
Qed.

Lemma replaceAllFrom_nil m rep prev :
  m prev [] = None -> replaceAllFrom m rep 0 prev [] = [].
Proof. intros H. simpl. rewrite H. reflexivity. Qed.

(** A match that reaches the end of the input ends the scan. *)
Lemma replaceAllFrom_skip_all m rep prev s :
  (forall p, m (Some p) [] = None) ->
  replaceAllFrom m rep (length s) (Some prev) s = [].
Proof.
  intros Hm. revert prev; induction s as [|c s IH]; intros prev; simpl.
  - rewrite Hm. reflexivity.
  - apply IH.
Qed.

(** ** Name sanitizer *)

Section Sanitizer.

Variable host : Host.

(** *** The passes of [sanitizeFileName] as list functions *)

Lemma pass3_filter prev s :
  replaceAllFrom reNotNameChar [] 0 prev s = List.filter isNameChar s.
Proof.
  revert prev; induction s as [|c s IH]; intros prev; [reflexivity|].
  simpl. destruct (isNameChar c); simpl; rewrite IH; reflexivity.
Qed.

Lemma pass3 s : replaceAll reNotNameChar [] s = List.filter isNameChar s.
Proof. apply pass3_filter. Qed.

Lemma reEdgeHyphens_inner p c s :
  reEdgeHyphens (Some p) (c :: s)
  = if isHyphen c && forallb isHyphen s then Some (S (length s)) else None.
Proof.
  unfold reEdgeHyphens. cbn [runLength length].
  destruct (isHyphen c); cbn [andb]; [|reflexivity].
  destruct (forallb isHyphen s) eqn:E.
  - apply runLength_all in E. rewrite E, Nat.eqb_refl. reflexivity.
  - destruct (Nat.eqb_spec (S (runLength isHyphen s)) (S (length s))) as [H|H];
      [|reflexivity].
    injection H as H. apply runLength_all in H. congruence.
Qed.

Lemma reEdgeHyphens_start c s :
  reEdgeHyphens None (c :: s)
  = if isHyphen c then Some (S (runLength isHyphen s)) else None.
Proof. unfold reEdgeHyphens. cbn [runLength]. destruct (isHyphen c); reflexivity. Qed.

Lemma reHyphens_cons prev c s :
  reHyphens prev (c :: s)
  = if isHyphen c then Some (S (runLength isHyphen s)) else None.
Proof. unfold reHyphens. cbn [runLength]. destruct (isHyphen c); reflexivity. Qed.

Lemma reSeparators_cons prev c s :
  reSeparators prev (c :: s)
  = if isSeparator c then Some (S (runLength isSeparator s)) else None.
Proof. unfold reSeparators. cbn [runLength]. destruct (isSeparator c); reflexivity. Qed.

Lemma pass4_inner p s :
  replaceAllFrom reEdgeHyphens [] 0 (Some p) s = stripTrailing s.
Proof.
  revert p; induction s as [|c s IH]; intros p; [reflexivity|].
  rewrite replaceAllFrom_cons, reEdgeHyphens_inner. cbn [stripTrailing].
  destruct (isHyphen c && forallb isHyphen s); lazy iota beta.
  - apply replaceAllFrom_skip_all. reflexivity.
  - rewrite IH. reflexivity.
Qed.

Lemma pass4 s :
  replaceAll reEdgeHyphens [] s
  = stripTrailing (drop (runLength isHyphen s) s).
Proof.
  unfold replaceAll. destruct s as [|c s]; [reflexivity|].
  rewrite replaceAllFrom_cons, reEdgeHyphens_start. cbn [runLength].
  destruct (isHyphen c) eqn:Hc; lazy iota beta.
  - rewrite replaceAllFrom_skip by apply runLength_le.
    destruct (prevAfter_Some (runLength isHyphen s) c s) as [d ->].
    rewrite pass4_inner. reflexivity.
  - rewrite pass4_inner. cbn [drop stripTrailing]. rewrite Hc. reflexivity.
Qed.

(** The first hyphen of a run is replaced with the whole run. *)
Lemma collapseHyphens_cons c s :
  collapseHyphens (c :: s)
  = if isHyphen c && startsHyphen s then collapseHyphens s
    else c :: collapseHyphens s.
Proof. reflexivity. Qed.

Lemma collapseHyphens_run c s :
  isHyphen c = true ->
  collapseHyphens (c :: s)
  = HYPHEN :: collapseHyphens (drop (runLength isHyphen s) s).
Proof.
  revert c; induction s as [|d s IH]; intros c Hc.
  - cbn. rewrite Hc. cbn. rewrite (isHyphen_eq c Hc). reflexivity.
  - rewrite collapseHyphens_cons, Hc. cbn [andb startsHyphen runLength].
    destruct (isHyphen d) eqn:Hd; cbn [drop].
    + apply IH, Hd.
    + rewrite (isHyphen_eq c Hc). reflexivity.
Qed.

Lemma pass5_from n : forall prev s, (length s <= n)%nat ->
  replaceAllFrom reHyphens (js "-") 0 prev s = collapseHyphens s.
Proof.
  induction n as [|n IH]; intros prev s Hn.
  - destruct s; [reflexivity | simpl in Hn; lia].
  - destruct s as [|c s]; [reflexivity|]. simpl in Hn.
    rewrite replaceAllFrom_cons, reHyphens_cons.
    destruct (isHyphen c) eqn:Hc; lazy iota beta.
    + rewrite replaceAllFrom_skip by apply runLength_le.
      rewrite collapseHyphens_run by exact Hc.
      rewrite IH; [reflexivity|]. rewrite length_drop. lia.
    + rewrite IH by lia. cbn [collapseHyphens]. rewrite Hc. reflexivity.
Qed.

Lemma pass5 s : replaceAll reHyphens (js "-") s = collapseHyphens s.
Proof. apply (pass5_from (length s)). lia. Qed.

(** *** What each pass establishes and what it keeps *)

Lemma forallb_drop (p : N -> bool) n s :
  forallb p s = true -> forallb p (drop n s) = true.
Proof.
  revert s; induction n as [|n IH]; intros s H; [destruct s; exact H|].
  destruct s as [|c s]; [reflexivity|]. simpl in *.
  apply andb_true_iff in H as [_ H]. auto.
Qed.

Lemma forallb_filter_same (p : N -> bool) s :
  forallb p (List.filter p s) = true.
Proof.
  induction s as [|c s IH]; [reflexivity|]. simpl.
  destruct (p c) eqn:E; simpl; rewrite ?E; auto.
Qed.

Lemma filter_all (p : N -> bool) s :
  forallb p s = true -> List.filter p s = s.
Proof.
  induction s as [|c s IH]; [reflexivity|]. simpl. intros H.
  apply andb_true_iff in H as [-> H]. rewrite IH by exact H. reflexivity.
Qed.

Lemma startsHyphen_drop_run s :
  startsHyphen (drop (runLength isHyphen s) s) = false.
Proof.
  pose proof (runLength_stop isHyphen s) as H.
  destruct (drop _ s); [reflexivity | exact H].
Qed.

Lemma drop_run_id s :
  startsHyphen s = false -> drop (runLength isHyphen s) s = s.
Proof. destruct s as [|c s]; [reflexivity|]. simpl. intros ->. reflexivity. Qed.

Lemma stripTrailing_nil s :
  stripTrailing s = [] -> forallb isHyphen s = true.
Proof.
  destruct s as [|c s]; [reflexivity|]. simpl.
  destruct (isHyphen c && forallb isHyphen s) eqn:E; [auto | discriminate].
Qed.

Lemma stripTrailing_forallb (p : N -> bool) s :
  forallb p s = true -> forallb p (stripTrailing s) = true.
Proof.
  induction s as [|c s IH]; [reflexivity|]. simpl. intros H.
  apply andb_true_iff in H as [Hc H].
  destruct (isHyphen c && forallb isHyphen s); [reflexivity|].
  simpl. rewrite Hc. auto.
Qed.

Lemma stripTrailing_starts s :
  startsHyphen s = false -> startsHyphen (stripTrailing s) = false.
Proof.
  destruct s as [|c s]; [reflexivity|]. simpl. intros Hc.
  rewrite Hc. simpl. exact Hc.
Qed.

Lemma stripTrailing_ends s : endsHyphen (stripTrailing s) = false.
Proof.
  induction s as [|c s IH]; [reflexivity|]. simpl.
  destruct (isHyphen c && forallb isHyphen s) eqn:E; [reflexivity|].
  simpl. destruct (stripTrailing s) eqn:Es; [|exact IH].
  simpl. apply stripTrailing_nil in Es. rewrite Es, andb_true_r in E. exact E.
Qed.

Lemma endsHyphen_all s :
  forallb isHyphen s = true -> s <> [] -> endsHyphen s = true.
Proof.
  induction s as [|c s IH]; [congruence|]. simpl. intros H _.
  apply andb_true_iff in H as [Hc H].
  destruct s as [|d s]; [exact Hc|]. apply IH; [exact H | discriminate].
Qed.

Lemma stripTrailing_id s : endsHyphen s = false -> stripTrailing s = s.
Proof.
  induction s as [|c s IH]; [reflexivity|]. intros H. simpl.
  destruct (isHyphen c && forallb isHyphen s) eqn:E.
  - apply andb_true_iff in E as [Hc Hs].
    rewrite (endsHyphen_all (c :: s)) in H; [discriminate | | discriminate].
    simpl. rewrite Hc, Hs. reflexivity.
  - f_equal. apply IH. simpl in H. destruct s; [reflexivity | exact H].
Qed.

Lemma collapseHyphens_forallb (p : N -> bool) s :
  forallb p s = true -> forallb p (collapseHyphens s) = true.
Proof.
  induction s as [|c s IH]; [reflexivity|]. simpl. intros H.
  apply andb_true_iff in H as [Hc H].
  destruct (isHyphen c && startsHyphen s); [auto|].
  simpl. rewrite Hc. auto.
Qed.

Lemma collapseHyphens_starts s :
  startsHyphen (collapseHyphens s) = startsHyphen s.
Proof.
  induction s as [|c s IH]; [reflexivity|]. simpl.
  destruct (isHyphen c && startsHyphen s) eqn:E; [|reflexivity].
  apply andb_true_iff in E as [Hc Hs]. rewrite IH, Hs, Hc. reflexivity.
Qed.

Lemma collapseHyphens_nil s : collapseHyphens s = [] -> s = [].
Proof.
  induction s as [|c s IH]; [reflexivity|]. simpl.
  destruct (isHyphen c && startsHyphen s) eqn:E; [|discriminate].
  intros H. apply IH in H. subst s. rewrite andb_false_r in E. discriminate.
Qed.

Lemma collapseHyphens_ends s :
  endsHyphen (collapseHyphens s) = endsHyphen s.
Proof.
  induction s as [|c s IH]; [reflexivity|]. simpl.
  destruct (isHyphen c && startsHyphen s) eqn:E.
  - rewrite IH. destruct s; [rewrite andb_false_r in E; discriminate | reflexivity].
  - simpl. rewrite IH. destruct s as [|d s]; [reflexivity|].
    destruct (collapseHyphens (d :: s)) eqn:Ec; [|reflexivity].
    apply collapseHyphens_nil in Ec. discriminate.
Qed.

Lemma collapseHyphens_double s : doubleHyphen (collapseHyphens s) = false.
Proof.
  induction s as [|c s IH]; [reflexivity|]. simpl.
  destruct (isHyphen c && startsHyphen s) eqn:E; [exact IH|].
  simpl. rewrite collapseHyphens_starts, E, IH. reflexivity.
Qed.

Lemma collapseHyphens_id s : doubleHyphen s = false -> collapseHyphens s = s.
Proof.
  induction s as [|c s IH]; [reflexivity|]. simpl. intros H.
  apply orb_false_iff in H as [-> H]. rewrite IH by exact H. reflexivity.
Qed.

Lemma lower_starts s : startsHyphen (map asciiLower s) = startsHyphen s.
Proof. destruct s; [reflexivity|]. simpl. apply asciiLower_hyphen. Qed.

Lemma lower_ends s : endsHyphen (map asciiLower s) = endsHyphen s.
Proof.
  induction s as [|c s IH]; [reflexivity|]. simpl.
  rewrite IH, asciiLower_hyphen. destruct s; reflexivity.
Qed.

Lemma lower_double s : doubleHyphen (map asciiLower s) = doubleHyphen s.
Proof.
  induction s as [|c s IH]; [reflexivity|]. simpl.
  rewrite IH, lower_starts, asciiLower_hyphen. reflexivity.
Qed.

Lemma lower_nameChars s :
  forallb isNameChar s = true ->
  forallb isLowerNameChar (map asciiLower s) = true.
Proof.
  induction s as [|c s IH]; [reflexivity|]. simpl. intros H.
  apply andb_true_iff in H as [Hc H]. rewrite nameChar_lower, IH; auto.
Qed.

Lemma lower_id s : forallb isLowerNameChar s = true -> map asciiLower s = s.
Proof.
  induction s as [|c s IH]; [reflexivity|]. simpl. intros H.
  apply andb_true_iff in H as [Hc H].
  rewrite lowerNameChar_fixed, IH; auto.
Qed.

Lemma toLowerCase_nameChars s :
  forallb isNameChar s = true -> toLowerCase host s = map asciiLower s.
Proof.
  intros H. unfold toLowerCase.
  replace (forallb isAscii s) with true; [reflexivity|].
  symmetry. induction s as [|c s IH]; [reflexivity|]. simpl in *.
  apply andb_true_iff in H as [Hc H]. rewrite nameChar_ascii, IH; auto.
Qed.

Lemma beforeLowerCase_shape filename :
  let t := beforeLowerCase filename in
  forallb isNameChar t = true /\ startsHyphen t = false
  /\ endsHyphen t = false /\ doubleHyphen t = false.
Proof.
  unfold beforeLowerCase. rewrite pass5, pass4, !pass3.
  set (v := List.filter isNameChar _).
  assert (Hv : forallb isNameChar v = true) by apply forallb_filter_same.
  cbv zeta. repeat split.
  - apply collapseHyphens_forallb, stripTrailing_forallb, forallb_drop, Hv.
  - rewrite collapseHyphens_starts. apply stripTrailing_starts.
    apply startsHyphen_drop_run.
  - rewrite collapseHyphens_ends. apply stripTrailing_ends.
  - apply collapseHyphens_double.
Qed.

(** A sanitized name, in the terms of the recursive predicates. *)
Lemma sanitizeFileName_shape filename :
  let t := sanitizeFileName host filename in
  forallb isLowerNameChar t = true /\ startsHyphen t = false
  /\ endsHyphen t = false /\ doubleHyphen t = false.
Proof.
  destruct (beforeLowerCase_shape filename) as (Hn & Hs & He & Hd).
  unfold sanitizeFileName. fold (beforeLowerCase filename).
  rewrite toLowerCase_nameChars by exact Hn. cbv zeta.
  rewrite lower_starts, lower_ends, lower_double.
  auto using lower_nameChars.
Qed.

(** *** The passes on a name that is already sanitized *)

Lemma pass1_id prev s :
  forallb isLowerNameChar s = true ->
  replaceFirstFrom (reLiteral (js ".svg")) [] prev s = s.
Proof.
  revert prev; induction s as [|c s IH]; intros prev H; [reflexivity|].
  simpl in H. apply andb_true_iff in H as [Hc H].
  cbn [replaceFirstFrom]. unfold reLiteral at 1.
  change (startsWith (js ".svg") (c :: s))
    with ((46 =? c) && startsWith (js "svg") s).
  rewrite N.eqb_sym, (lowerNameChar_not_dot c Hc). cbn [andb].
  rewrite IH by exact H. reflexivity.
Qed.

Lemma runLength_separator_name s :
  forallb isLowerNameChar s = true -> startsHyphen s = false ->
  runLength isSeparator s = 0%nat.
Proof.
  destruct s as [|c s]; [reflexivity|]. simpl. intros H Hc.
  apply andb_true_iff in H as [H _].
  rewrite (lowerNameChar_separator c H), Hc. reflexivity.
Qed.

Lemma pass2_id prev s :
  forallb isLowerNameChar s = true -> doubleHyphen s = false ->
  replaceAllFrom reSeparators (js "-") 0 prev s = s.
Proof.
  revert prev; induction s as [|c s IH]; intros prev H Hd; [reflexivity|].
  simpl in H, Hd. apply andb_true_iff in H as [Hc H].
  apply orb_false_iff in Hd as [Hcs Hd].
  rewrite replaceAllFrom_cons, reSeparators_cons.
  rewrite (lowerNameChar_separator c Hc).
  destruct (isHyphen c) eqn:Hh; lazy iota beta.
  - cbn [andb] in Hcs. rewrite runLength_separator_name by assumption.
    rewrite IH by assumption. rewrite (isHyphen_eq c Hh). reflexivity.
  - rewrite IH by assumption. reflexivity.
Qed.

Lemma forallb_lowerNameChar_nameChar s :
  forallb isLowerNameChar s = true -> forallb isNameChar s = true.
Proof.
  induction s as [|c s IH]; [reflexivity|]. simpl. intros H.
  apply andb_true_iff in H as [Hc H].
  rewrite lowerNameChar_nameChar, IH; auto.
Qed.

(** A string with the shape of a sanitized name is a fixed point. *)
Lemma sanitizeFileName_fixed t :
  forallb isLowerNameChar t = true -> startsHyphen t = false ->
  endsHyphen t = false -> doubleHyphen t = false ->
  sanitizeFileName host t = t.
Proof.
  intros Hn Hs He Hd.
  pose proof (forallb_lowerNameChar_nameChar t Hn) as Hn'.
  unfold sanitizeFileName, replaceFirst.
  rewrite pass1_id by exact Hn.
  unfold replaceAll at 4. rewrite pass2_id by assumption.
  rewrite pass3, filter_all by exact Hn'.
  rewrite pass4, drop_run_id, stripTrailing_id by assumption.
  rewrite pass5, collapseHyphens_id by assumption.
  rewrite toLowerCase_nameChars by exact Hn'.
  apply lower_id, Hn.
Qed.

(** *** The recursive predicates, read on positions *)

Lemma startsHyphen_head s : startsHyphen s = false -> head s <> Some HYPHEN.
Proof.
  destruct s as [|c s]; [discriminate|]. simpl. intros H [= ->]. discriminate.
Qed.

Lemma endsHyphen_last s : endsHyphen s = false -> last s <> Some HYPHEN.
Proof.
  induction s as [|c s IH]; [discriminate|].
  destruct s as [|d s]; simpl.
  - intros H [= ->]. discriminate.
  - intros H. apply IH. exact H.
Qed.

Lemma doubleHyphen_lookup s i :
  doubleHyphen s = false ->
  ~ (s !! i = Some HYPHEN /\ s !! S i = Some HYPHEN).
Proof.
  revert i; induction s as [|c s IH]; intros i H [H1 H2]; [discriminate|].
  simpl in H. apply orb_false_iff in H as [Hc H].
  destruct i as [|i].
  - simpl in H1, H2. injection H1 as ->.
    destruct s as [|d s]; [discriminate|]. simpl in H2. injection H2 as ->.
    discriminate.
  - apply (IH i H). split; assumption.
Qed.

Lemma lowerNameChar_cases c :
  isLowerNameChar c = true ->
  isLowerAZ c = true \/ isDigit c = true \/ c = HYPHEN.
Proof.
  unfold isLowerNameChar. intros H.
  apply orb_true_iff in H as [H|H]; [apply orb_true_iff in H as [H|H]|];
    auto using isHyphen_eq.
Qed.

(** ** C2 and C9 *)

(** C2: for every filename, the sanitized name holds only lowercase
    letters, digits and hyphens, does not start with a hyphen, does not
    end with one, and has no two hyphens next to each other (the empty
    name included). *)
Theorem sanitizeFileName_alphabet (filename : str) :
  let name := sanitizeFileName host filename in
  Forall (fun c => isLowerAZ c = true \/ isDigit c = true \/ c = HYPHEN) name
  /\ head name <> Some HYPHEN
  /\ last name <> Some HYPHEN
  /\ (forall i, ~ (name !! i = Some HYPHEN /\ name !! S i = Some HYPHEN)).
Proof.
  destruct (sanitizeFileName_shape filename) as (Hn & Hs & He & Hd).
  cbv zeta. repeat split.
  - apply Forall_forall. intros c Hc. apply lowerNameChar_cases.
    rewrite forallb_forall in Hn. apply Hn. apply list_elem_of_In, Hc.
  - apply startsHyphen_head, Hs.
  - apply endsHyphen_last, He.
  - intros i. apply doubleHyphen_lookup, Hd.
Qed.

(** C9: sanitizing a sanitized name gives it back. *)
Theorem sanitizeFileName_idempotent (s : str) :
  sanitizeFileName host (sanitizeFileName host s) = sanitizeFileName host s.
Proof.
  destruct (sanitizeFileName_shape s) as (Hn & Hs & He & Hd).
  apply sanitizeFileName_fixed; assumption.
Qed.

End Sanitizer.

(** ** C8 *)

(** C8: [sanitizeFileName] maps [My Icon_2.svg] to [my-icon-2] and
    [...svg] to the empty string; [toPascalCase] maps [user-profile] to
    [UserProfile] and [toCamelCase] maps it to [userProfile]. *)
Theorem naming_examples (host : Host) :
  sanitizeFileName host (js "My Icon_2.svg") = js "my-icon-2"
  /\ sanitizeFileName host (js "...svg") = []
  /\ toPascalCase host (js "user-profile") = js "UserProfile"
  /\ toCamelCase host (js "user-profile") = js "userProfile".
Proof. repeat split; vm_compute; reflexivity. Qed.

(** ** C1 *)

(** C1, on [nestedSvg]: the code removes the first closing tag, which
    closes the inner element, and keeps the last one; the child markup of
    the outer element is something else. *)
Theorem stripSvgWrapper_nested :
  stripSvgWrapper nestedSvg = js "<svg><path/><circle/></svg>"
  /\ stripOuterTags nestedSvg = js "<svg><path/></svg><circle/>"
  /\ forall cfg : SvgifyConfig (exampleHost [] (fun _ => Some nestedSvg)),
       optimizedSvg <$>
         processIcon (exampleHost [] (fun _ => Some nestedSvg))
           (js "nested.svg") cfg
       = Some (js "<svg><path/><circle/></svg>").
Proof. repeat split; vm_compute; reflexivity. Qed.

(** ** Icon processor *)

Section Processor.

Variable host : Host.

Lemma processAll_from (config : SvgifyConfig host) files acc :
  foldl (fun processedIcons file =>
           match processIcon host file config with
           | Some result => processedIcons ++ [result]
           | None => processedIcons
           end)
        acc files
  = acc ++ processAll host files config.
Proof.
  unfold processAll. revert acc.
  induction files as [|f files IH]; intros acc; simpl.
  - rewrite app_nil_r. reflexivity.
  - rewrite IH, (IH (match _ with Some _ => _ | None => _ end)).
    destruct (processIcon host f config); simpl.
    + rewrite <- app_assoc. reflexivity.
    + reflexivity.
Qed.

Lemma processAll_cons (config : SvgifyConfig host) file files :
  processAll host (file :: files) config
  = match processIcon host file config with
    | Some result => result :: processAll host files config
    | None => processAll host files config
    end.
Proof.
  unfold processAll at 1. simpl. rewrite processAll_from.
  destruct (processIcon host file config); reflexivity.
Qed.


(** ** C6 *)


Lemma drop_app_length' (a b : list N) : drop (length (a ++ b) - length b) (a ++ b) = b.
Proof.
  rewrite length_app. replace (length a + length b - length b)%nat
    with (length a) by lia.
  apply drop_app_length.
Qed.

Lemma endsWith_app stem ext suffix :
  length ext = length suffix -> ext <> suffix ->
  endsWith (stem ++ ext) suffix = false.
Proof.
  intros Hlen Hne. unfold endsWith. rewrite <- Hlen, drop_app_length'.
  rewrite bool_decide_eq_false_2 by exact Hne. apply andb_false_r.
Qed.

(** ** C10 *)

(** C10: an entry whose name ends in [.svg] written with another letter
    case, [.SVG] for one, does not end in [.svg] for the program: the
    discovery filter leaves it out, it is not among the processed icons
    whatever the listing, and [processIcon] returns [null] for it. *)
Theorem svg_suffix_case_sensitive (stem ext : str)
    (config : SvgifyConfig host) (files : list str) :
  isCaseVariant ext = true ->
  endsWith (stem ++ ext) (js ".svg") = false
  /\ ~ In (stem ++ ext)
         (List.filter (fun file => endsWith file (js ".svg")) files)
  /\ processIcon host (stem ++ ext) config = None.
Proof.
  unfold isCaseVariant. intros H.
  apply andb_true_iff in H as [H Hne]. apply andb_true_iff in H as [Hlen _].
  apply Nat.eqb_eq in Hlen. apply negb_true_iff, bool_decide_eq_false in Hne.
  assert (Hends : endsWith (stem ++ ext) (js ".svg") = false)
    by (apply endsWith_app; [exact Hlen | exact Hne]).
  repeat split.
  - exact Hends.
  - intros Hin. apply filter_In in Hin as [_ Hin]. congruence.
  - unfold processIcon. rewrite Hends. reflexivity.
Qed.

End Processor.


Lemma svg_suffix_case_sensitive_witness :
  let host := exampleHost [js "logo.SVG"] (fun _ => Some nestedSvg) in
  endsWith (js "logo" ++ js ".SVG") (js ".svg") = false
  /\ ~ In (js "logo" ++ js ".SVG")
         (List.filter (fun file => endsWith file (js ".svg")) [js "logo.SVG"])
  /\ processIcon host (js "logo" ++ js ".SVG") (exampleConfig host) = None.
Proof.
  intros host.
  apply (svg_suffix_case_sensitive host (js "logo") (js ".SVG")
           (exampleConfig host) [js "logo.SVG"]).
  vm_compute. reflexivity.
Defined.

(** ** Template generators *)

Section Generators.

Variable host : Host.




(** ** C7 *)


End Generators.

(** ** Generation orchestrator *)

Section Orchestrator.

Variable host : Host.




Lemma processAll_In (config : SvgifyConfig host) files icon :
  In icon (processAll host files config) ->
  exists file, In file files /\ processIcon host file config = Some icon.
Proof.
  induction files as [|f files IH]; [intros []|].
  rewrite processAll_cons. destruct (processIcon host f config) eqn:E.
  - intros [<-|H]; [exists f; simpl; auto|].
    destruct (IH H) as (file & ? & ?). exists file. simpl. auto.
  - intros H. destruct (IH H) as (file & ? & ?). exists file. simpl. auto.
Qed.

(** *** The files after the writes *)



Lemma emit_both (icons : list ProcessedIcon) (config : SvgifyConfig host) :
  includesRegistry (modeOf host config) = true ->
  emit host icons config
  = map (fun icon =>
           (pathJoin host (outputDir host config)
              (componentFile (getFileExtension (isTS host config)) icon),
            generateIconComponent host icon config)) icons
    ++ [ (pathJoin host (outputDir host config)
            (js "IconRegistry." ++ getFileExtension (isTS host config)),
          generateIconRegistry host icons config);
         (pathJoin host (outputDir host config)
            (js "Icon." ++ getFileExtension (isTS host config)),
          generateIconWrapper host config);
         (pathJoin host (outputDir host config)
            (indexFile (getFileExtension (isTS host config))),
          generateIndexFile host icons config) ].
Proof. intros H. unfold emit. rewrite H. reflexivity. Qed.


Lemma generate_completed (userConfig : SvgifyConfig host) writes command :
  generate host userConfig = Completed writes command ->
  writes
  = emit host
      (processAll host
         (List.filter (fun file => endsWith file (js ".svg"))
            (readdirSync host (inputDir host (mergeDefaults host userConfig))))
         (mergeDefaults host userConfig))
      (mergeDefaults host userConfig).
Proof.
  unfold generate. destruct (_ || _); [discriminate|].
  destruct (_ =? _)%nat; [discriminate|].
  destruct (_ =? _)%nat; [discriminate|].
  intros [= <- _]. reflexivity.
Qed.

(** *** File names that cannot meet *)






(** ** C5 *)


End Orchestrator.

(** ** C5 and C7 on a run with two files of one sanitized name *)

Lemma collidingHost_icons :
  processAll collidingHost [js "user-icon.svg"; js "user_icon.svg"]
    (mergeDefaults collidingHost (exampleConfig collidingHost))
  = [userIcon1; userIcon2].
Proof. vm_compute. reflexivity. Qed.



(** ** C5 on a run with two files of different names *)



(** ** Attribute translator *)

Lemma eqCI_stop k c : eqCI k c = true -> stopUnit c = true -> stopUnit k = true.
Proof. unfold stopUnit. cu_lia. Qed.

Lemma lookaheadEquals_cons c s :
  lookaheadEquals (c :: s)
  = if isSpace c then lookaheadEquals s else (c =? EQUALS).
Proof.
  unfold lookaheadEquals. cbn [runLength]. destruct (isSpace c); [reflexivity|].
  cbn [drop startsWith]. rewrite andb_true_r. apply N.eqb_sym.
Qed.

Lemma lookaheadEquals_plain c s :
  stopUnit c = false -> lookaheadEquals (c :: s) = false.
Proof.
  intros H. rewrite lookaheadEquals_cons. unfold stopUnit in H.
  apply orb_false_iff in H as [-> H]. exact H.
Qed.

Lemma lookaheadEquals_head s :
  lookaheadEquals s = true -> exists c s', s = c :: s' /\ stopUnit c = true.
Proof.
  destruct s as [|c s]; [discriminate|]. rewrite lookaheadEquals_cons.
  intros H. exists c, s. split; [reflexivity|]. unfold stopUnit.
  destruct (isSpace c); [reflexivity|]. exact H.
Qed.

Lemma patternAt_nil s : patternAt [] s = lookaheadEquals s.
Proof. reflexivity. Qed.

Lemma patternAt_cons k kebab c s :
  patternAt (k :: kebab) (c :: s) = eqCI k c && patternAt kebab s.
Proof.
  unfold patternAt. cbn [startsWithCI length drop].
  rewrite andb_assoc. reflexivity.
Qed.

Lemma patternAt_cons_nil k kebab : patternAt (k :: kebab) [] = false.
Proof. reflexivity. Qed.

(** An attribute name matched over inserted text that ends where the
    lookahead begins is that text, up to letter case. *)
Lemma patternAt_inserted kebab x c tail :
  plainUnits kebab = true -> plainUnits x = true -> stopUnit c = true ->
  patternAt kebab (x ++ c :: tail) = true -> equalCI kebab x = true.
Proof.
  revert x; induction kebab as [|k kebab IH]; intros x Hk Hx Hc H.
  - destruct x as [|d x]; [reflexivity|].
    simpl in Hx. apply andb_true_iff in Hx as [Hd _].
    rewrite patternAt_nil in H. cbn [app] in H.
    rewrite lookaheadEquals_plain in H; [discriminate|].
    apply negb_true_iff, Hd.
  - simpl in Hk. apply andb_true_iff in Hk as [Hk0 Hk].
    destruct x as [|d x]; cbn [app] in H; rewrite patternAt_cons in H;
      apply andb_true_iff in H as [Hkd H].
    + apply (eqCI_stop k c Hkd) in Hc. rewrite Hc in Hk0. discriminate.
    + simpl in Hx. apply andb_true_iff in Hx as [_ Hx].
      specialize (IH x Hk Hx Hc H). unfold equalCI in *.
      cbn [length startsWithCI Nat.eqb]. rewrite Hkd.
      apply andb_true_iff in IH as [-> ->]. reflexivity.
Qed.

Lemma startsWithCI_length p s :
  startsWithCI p s = true -> (length p <= length s)%nat.
Proof.
  revert s; induction p as [|a p IH]; intros s H; simpl; [lia|].
  destruct s as [|b s]; [discriminate|]. simpl in H.
  apply andb_true_iff in H as [_ H]. apply IH in H. simpl. lia.
Qed.

Lemma reAttribute_spec kebab prev s :
  reAttribute kebab prev s
  = if wordBoundary prev s && patternAt kebab s then Some (length kebab)
    else None.
Proof. unfold reAttribute, patternAt. rewrite andb_assoc. reflexivity. Qed.

Lemma eqCI_sym a b : eqCI a b = eqCI b a.
Proof. unfold eqCI. apply N.eqb_sym. Qed.

Lemma equalCI_sym a b : equalCI a b = equalCI b a.
Proof.
  unfold equalCI. revert b; induction a as [|x a IH]; intros [|y b];
    try reflexivity.
  cbn [length startsWithCI Nat.eqb]. specialize (IH b).
  rewrite (eqCI_sym x y).
  destruct (eqCI y x); cbn [andb]; [exact IH|].
  rewrite !andb_false_r. reflexivity.
Qed.

Lemma wordBoundary_head prev c s s' :
  wordBoundary prev (c :: s) = wordBoundary prev (c :: s').
Proof. reflexivity. Qed.

(** No match of [other] starts at a code unit that the lookahead
    accepts. *)
Lemma reAttribute_stop other prev c s :
  plainUnits other = true -> other <> [] -> stopUnit c = true ->
  reAttribute other prev (c :: s) = None.
Proof.
  intros Hplain Hne Hc. rewrite reAttribute_spec.
  destruct other as [|k other]; [congruence|].
  rewrite patternAt_cons. simpl in Hplain.
  apply andb_true_iff in Hplain as [Hk _]. apply negb_true_iff in Hk.
  destruct (eqCI k c) eqn:E.
  - rewrite (eqCI_stop k c E Hc) in Hk. discriminate.
  - rewrite andb_false_r. reflexivity.
Qed.

(** No match of [other] starts inside inserted text [x] that is followed
    by the lookahead, when no suffix of [x] is [other]. *)
Lemma occurs_inserted other x c tail prev prev' :
  plainUnits other = true -> other <> [] -> plainUnits x = true ->
  noSuffixIs x other = true -> stopUnit c = true ->
  occurs other prev (x ++ c :: tail) = occurs other prev' (c :: tail).
Proof.
  intros Hplain Hne Hx Hsuf Hc. revert prev Hx Hsuf.
  induction x as [|d x IH]; intros prev Hx Hsuf.
  - cbn [app occurs]. rewrite !reAttribute_stop by assumption. reflexivity.
  - simpl in Hx, Hsuf. apply andb_true_iff in Hx as [Hd Hx].
    apply andb_true_iff in Hsuf as [Hnot Hsuf].
    cbn [app occurs]. rewrite reAttribute_spec.
    destruct (patternAt other (d :: x ++ c :: tail)) eqn:E.
    + apply (patternAt_inserted other (d :: x) c tail) in E; try assumption.
      * rewrite equalCI_sym, E in Hnot. discriminate.
      * simpl. rewrite Hd. exact Hx.
    + rewrite andb_false_r. apply IH; assumption.
Qed.

Section Pass.

(** One entry of [SVG_ATTR_MAP]. *)
Variables kebab camel : list N.
Hypothesis kebab_plain : plainUnits kebab = true.
Hypothesis camel_plain : plainUnits camel = true.
Hypothesis kebab_nonempty : kebab <> [].
Hypothesis camel_nonempty : camel <> [].

Lemma pass_nil prev : pass kebab camel prev [] = [].
Proof.
  unfold pass. apply replaceAllFrom_nil. rewrite reAttribute_spec.
  destruct kebab; [congruence|]. rewrite patternAt_cons_nil, andb_false_r.
  reflexivity.
Qed.

Lemma pass_copy prev c s :
  reAttribute kebab prev (c :: s) = None ->
  pass kebab camel prev (c :: s) = c :: pass kebab camel (Some c) s.
Proof. intros H. unfold pass. rewrite replaceAllFrom_cons, H. reflexivity. Qed.

(** At a match the name is replaced, and what follows the match starts
    with the lookahead. *)
Lemma pass_replace prev c s n :
  reAttribute kebab prev (c :: s) = Some n ->
  exists prev' rest,
    pass kebab camel prev (c :: s) = camel ++ pass kebab camel (Some prev') rest
    /\ (length rest < length (c :: s))%nat
    /\ lookaheadEquals rest = true
    /\ patternAt kebab (c :: s) = true
    /\ (forall other, occurs other prev (c :: s) = false ->
        occurs other (Some prev') rest = false).
Proof.
  rewrite reAttribute_spec.
  destruct (wordBoundary prev (c :: s)) eqn:Hwb; [|discriminate].
  destruct (patternAt kebab (c :: s)) eqn:E; [|discriminate].
  intros _.
  pose proof E as E'. unfold patternAt in E'.
  apply andb_true_iff in E' as [Hstart Hlook].
  apply startsWithCI_length in Hstart.
  destruct (length kebab) as [|m] eqn:Hlen;
    [apply length_zero_iff_nil in Hlen; congruence|].
  cbn [length drop] in Hstart, Hlook.
  destruct (prevAfter_Some m c s) as [prev' Hprev].
  exists prev', (drop m s). repeat split; try assumption.
  - unfold pass. rewrite replaceAllFrom_cons, reAttribute_spec, Hwb, E, Hlen.
    cbn [andb]. lazy iota beta.
    rewrite replaceAllFrom_skip by lia. rewrite Hprev. reflexivity.
  - rewrite length_drop. cbn [length]. lia.
  - intros other Hocc. rewrite <- Hprev.
    cbn [occurs] in Hocc.
    destruct (reAttribute other prev (c :: s)); [discriminate|].
    clear -Hocc. revert c s Hocc.
    induction m as [|m IH]; intros c s Hocc; [destruct s; exact Hocc|].
    destruct s as [|d s]; [exact Hocc|]. cbn [prevAfter drop].
    apply IH. cbn [occurs] in Hocc.
    destruct (reAttribute other (Some c) (d :: s)); [discriminate|].
    exact Hocc.
Qed.

Lemma camel_head : exists d camel', camel = d :: camel' /\ stopUnit d = false.
Proof.
  pose proof camel_plain as H. pose proof camel_nonempty as Hne.
  destruct camel as [|d camel']; [congruence|]. exists d, camel'.
  split; [reflexivity|].
  simpl in H. apply andb_true_iff in H as [H _]. apply negb_true_iff, H.
Qed.

Lemma kebab_head_plain c s :
  patternAt kebab (c :: s) = true -> stopUnit c = false.
Proof.
  pose proof kebab_plain as Hk. pose proof kebab_nonempty as Hne.
  destruct kebab as [|k kebab']; [congruence|].
  rewrite patternAt_cons. intros H. apply andb_true_iff in H as [H _].
  simpl in Hk.
  apply andb_true_iff in Hk as [Hk _]. apply negb_true_iff in Hk.
  destruct (stopUnit c) eqn:Hc; [|reflexivity].
  rewrite (eqCI_stop k c H Hc) in Hk. discriminate.
Qed.

(** The pass leaves the lookahead of every position as it was. *)
Lemma pass_lookahead prev s :
  lookaheadEquals (pass kebab camel prev s) = lookaheadEquals s.
Proof.
  revert prev; induction s as [|c s IH]; intros prev.
  - rewrite pass_nil. reflexivity.
  - destruct (reAttribute kebab prev (c :: s)) as [n|] eqn:E.
    + destruct (pass_replace prev c s n E)
        as (prev' & rest & -> & _ & _ & Hpat & _).
      destruct camel_head as (d & camel' & -> & Hd).
      cbn [app]. rewrite !lookaheadEquals_plain; auto.
      apply kebab_head_plain with s, Hpat.
    + rewrite pass_copy by exact E. rewrite !lookaheadEquals_cons, IH.
      reflexivity.
Qed.

(** A name that matches in the output of the pass, lookahead included,
    matches at the same place of the input. *)
Lemma pass_patternAt other prev s :
  plainUnits other = true -> noSuffixIs other camel = true ->
  patternAt other (pass kebab camel prev s) = true -> patternAt other s = true.
Proof.
  revert prev s; induction other as [|k other IH]; intros prev s Hplain Hsuf H.
  - rewrite patternAt_nil in *. rewrite pass_lookahead in H. exact H.
  - simpl in Hplain, Hsuf.
    apply andb_true_iff in Hplain as [Hk Hplain'].
    apply andb_true_iff in Hsuf as [Hne Hsuf'].
    destruct s as [|c s]; [rewrite pass_nil in H; discriminate|].
    destruct (reAttribute kebab prev (c :: s)) as [n|] eqn:E.
    + destruct (pass_replace prev c s n E)
        as (prev' & rest & Hpass & _ & Hlook & _ & _).
      rewrite Hpass in H. rewrite <- (pass_lookahead (Some prev')) in Hlook.
      apply lookaheadEquals_head in Hlook as (t & tail & Htail & Ht).
      rewrite Htail in H.
      apply patternAt_inserted in H; try assumption.
      * rewrite H in Hne. discriminate.
      * simpl. rewrite Hk. exact Hplain'.
    + rewrite pass_copy in H by exact E. rewrite patternAt_cons in *.
      apply andb_true_iff in H as [-> H]. cbn [andb].
      exact (IH (Some c) s Hplain' Hsuf' H).
Qed.

(** The pass leaves no match of its own name, and creates no match of
    another name. *)
Lemma pass_occurs_bounded other :
  plainUnits other = true -> other <> [] ->
  noSuffixIs other camel = true -> noSuffixIs camel other = true ->
  forall n s prev,
    (length s <= n)%nat ->
    other = kebab \/ occurs other prev s = false ->
    occurs other prev (pass kebab camel prev s) = false.
Proof.
  intros Hplain Hne Hsuf Hsuf'. induction n as [|n IH]; intros s prev Hn Hs.
  - destruct s; [|simpl in Hn; lia]. rewrite pass_nil. reflexivity.
  - destruct s as [|c s]; [rewrite pass_nil; reflexivity|]. simpl in Hn.
    destruct (reAttribute kebab prev (c :: s)) as [m|] eqn:E.
    + destruct (pass_replace prev c s m E)
        as (prev' & rest & Hpass & Hlen & Hlook & _ & Hocc).
      assert (Hrest : occurs other (Some prev') (pass kebab camel (Some prev') rest)
                      = false).
      { apply IH; [simpl in Hlen; lia|].
        destruct Hs as [Hs|Hs]; [left; exact Hs | right; apply Hocc, Hs]. }
      rewrite <- (pass_lookahead (Some prev')) in Hlook.
      apply lookaheadEquals_head in Hlook as (t & tail & Htail & Ht).
      rewrite Hpass, Htail.
      rewrite (occurs_inserted other camel t tail prev (Some prev'));
        try assumption.
      rewrite <- Htail. exact Hrest.
    + rewrite pass_copy by exact E. cbn [occurs].
      destruct (reAttribute other prev (c :: pass kebab camel (Some c) s)) eqn:E2.
      * exfalso. rewrite reAttribute_spec in E2.
        destruct (wordBoundary prev (c :: pass kebab camel (Some c) s)) eqn:Hwb;
          [|discriminate].
        destruct (patternAt other (c :: pass kebab camel (Some c) s)) eqn:Hpat;
          [|discriminate].
        assert (Hat : reAttribute other prev (c :: s) = Some (length other)).
        { rewrite reAttribute_spec,
            (wordBoundary_head prev c s (pass kebab camel (Some c) s)), Hwb.
          destruct other as [|k other']; [congruence|].
          rewrite patternAt_cons in *.
          apply andb_true_iff in Hpat as [-> Hpat].
          simpl in Hplain, Hsuf.
          apply andb_true_iff in Hplain as [_ Hplain].
          apply andb_true_iff in Hsuf as [_ Hsuf].
          rewrite (pass_patternAt other' (Some c) s Hplain Hsuf Hpat).
          reflexivity. }
        destruct Hs as [->|Hs]; [congruence|].
        cbn [occurs] in Hs. rewrite Hat in Hs. discriminate.
      * apply IH; [lia|]. destruct Hs as [Hs|Hs]; [left; exact Hs|].
        right. cbn [occurs] in Hs.
        destruct (reAttribute other prev (c :: s)); [discriminate | exact Hs].
Qed.

(** Without a match the pass copies its input. *)
Lemma pass_id prev s : occurs kebab prev s = false -> pass kebab camel prev s = s.
Proof.
  revert prev; induction s as [|c s IH]; intros prev H.
  - apply pass_nil.
  - cbn [occurs] in H.
    destruct (reAttribute kebab prev (c :: s)) eqn:E; [discriminate|].
    rewrite pass_copy by exact E. rewrite IH by exact H. reflexivity.
Qed.

End Pass.

(** *** The table *)

Lemma SVG_ATTR_MAP_ok : forallb entryOK SVG_ATTR_MAP = true.
Proof. vm_compute. reflexivity. Qed.

Lemma isEmpty_false (s : list N) : negb (isEmpty s) = true -> s <> [].
Proof. destruct s; [discriminate | congruence]. Qed.

Lemma entry_facts entry :
  In entry SVG_ATTR_MAP ->
  plainUnits entry.1 = true /\ plainUnits entry.2 = true
  /\ entry.1 <> [] /\ entry.2 <> []
  /\ forall other, In other SVG_ATTR_MAP ->
       noSuffixIs other.1 entry.2 = true /\ noSuffixIs entry.2 other.1 = true.
Proof.
  intros Hin. pose proof SVG_ATTR_MAP_ok as H.
  rewrite forallb_forall in H. specialize (H entry Hin).
  unfold entryOK in H. rewrite !andb_true_iff in H.
  destruct H as [[[[? ?] ?] ?] Hall].
  repeat split; auto using isEmpty_false.
  - rewrite forallb_forall in Hall. specialize (Hall other H3).
    apply andb_true_iff in Hall. tauto.
  - rewrite forallb_forall in Hall. specialize (Hall other H3).
    apply andb_true_iff in Hall. tauto.
Qed.

Lemma convert_foldl s :
  convertSvgAttributesToCamelCase s = foldl translateEntry s SVG_ATTR_MAP.
Proof. reflexivity. Qed.

Lemma translateEntry_occurs entry other s :
  In entry SVG_ATTR_MAP -> In other SVG_ATTR_MAP ->
  other.1 = entry.1 \/ occurs other.1 None s = false ->
  occurs other.1 None (translateEntry s entry) = false.
Proof.
  intros Hentry Hother Hs.
  destruct (entry_facts entry Hentry) as (Hk & Hc & Hkne & Hcne & Hall).
  destruct (entry_facts other Hother) as (Hok & _ & Hokne & _).
  destruct (Hall other Hother) as [Hs1 Hs2].
  exact (pass_occurs_bounded entry.1 entry.2 Hk Hc Hkne Hcne other.1
           Hok Hokne Hs1 Hs2 (length s) s None (le_n _) Hs).
Qed.

(** After the entries [todo], no name of [done ++ todo] matches. *)
Lemma translate_clean todo : forall done s,
  (forall entry, In entry (done ++ todo) -> In entry SVG_ATTR_MAP) ->
  (forall entry, In entry done -> occurs entry.1 None s = false) ->
  forall entry, In entry (done ++ todo) ->
    occurs entry.1 None (foldl translateEntry s todo) = false.
Proof.
  induction todo as [|e todo IH]; intros done s Hsub Hdone entry Hin.
  - rewrite app_nil_r in Hin. apply Hdone, Hin.
  - cbn [foldl]. apply (IH (done ++ [e])).
    + intros x Hx. rewrite <- app_assoc in Hx. apply Hsub, Hx.
    + intros x Hx. apply in_app_or in Hx.
      assert (He : In e SVG_ATTR_MAP)
        by (apply Hsub, in_or_app; right; left; reflexivity).
      destruct Hx as [Hx|[<-|[]]].
      * apply translateEntry_occurs; auto.
        apply Hsub, in_or_app. left. exact Hx.
      * apply translateEntry_occurs; auto.
    + rewrite <- app_assoc. exact Hin.
Qed.

(** Entries without a match leave the string as it is. *)
Lemma translate_id todo s :
  (forall entry, In entry todo -> In entry SVG_ATTR_MAP) ->
  (forall entry, In entry todo -> occurs entry.1 None s = false) ->
  foldl translateEntry s todo = s.
Proof.
  induction todo as [|e todo IH]; intros Hsub Hclean; [reflexivity|].
  cbn [foldl].
  assert (He : translateEntry s e = s).
  { destruct (entry_facts e) as (Hk & _ & Hkne & _);
      [apply Hsub; left; reflexivity|].
    apply (pass_id e.1 e.2 Hk Hkne). apply Hclean. left. reflexivity. }
  rewrite He. apply IH; intros x Hx; [apply Hsub | apply Hclean]; right; exact Hx.
Qed.

Lemma mentions_occurs kebab prev s :
  mentions kebab s = false -> occurs kebab prev s = false.
Proof.
  revert prev; induction s as [|c s IH]; intros prev H; [reflexivity|].
  cbn [mentions] in H. apply orb_false_iff in H as [Hstart H].
  cbn [occurs]. unfold reAttribute. rewrite Hstart, andb_false_r. cbn [andb].
  apply IH, H.
Qed.

(** ** C3 *)

(** C3: translating the attribute names twice gives what translating
    them once gives; and markup in which no name of the table occurs, in
    any letter case, is left as it is. *)
Theorem convertSvgAttributesToCamelCase_idempotent (s : list N) :
  convertSvgAttributesToCamelCase (convertSvgAttributesToCamelCase s)
  = convertSvgAttributesToCamelCase s
  /\ ((forall kebab camel,
         In (kebab, camel) SVG_ATTR_MAP -> mentions kebab s = false) ->
      convertSvgAttributesToCamelCase s = s).
Proof.
  split.
  - rewrite !convert_foldl. apply translate_id; [auto|].
    intros entry Hin.
    apply (translate_clean SVG_ATTR_MAP [] s); auto. intros ? [].
  - intros H. rewrite convert_foldl. apply translate_id; [auto|].
    intros [kebab camel] Hin. apply mentions_occurs. exact (H kebab camel Hin).
Qed.

(** ** Colour normalization *)

(** *** The scan of a pattern that does not look behind *)

Lemma replaceAllFrom_prev (m : matcher) rep :
  (forall p p' s, m p s = m p' s) ->
  forall s n prev prev',
    replaceAllFrom m rep n prev s = replaceAllFrom m rep n prev' s.
Proof.
  intros Hm. induction s as [|c s IH]; intros n prev prev'.
  - destruct n; [simpl; rewrite (Hm prev prev')|]; reflexivity.
  - destruct n as [|n]; [|apply IH].
    cbn [replaceAllFrom]. rewrite (Hm prev prev').
    destruct (m prev' (c :: s)) as [[|k]|]; reflexivity.
Qed.

Lemma reColorAttr_prev name p p' s : reColorAttr name p s = reColorAttr name p' s.
Proof. reflexivity. Qed.

Lemma reColorAttr_nil name prev : reColorAttr name prev [] = None.
Proof.
  unfold reColorAttr. destruct name; reflexivity.
Qed.

Lemma colorPass_nil name : colorPass name [] = [].
Proof.
  unfold colorPass, replaceAll. apply replaceAllFrom_nil, reColorAttr_nil.
Qed.

Lemma colorPass_copy name c s :
  reColorAttr name None (c :: s) = None ->
  colorPass name (c :: s) = c :: colorPass name s.
Proof.
  intros H. unfold colorPass, replaceAll. rewrite replaceAllFrom_cons, H.
  f_equal. apply replaceAllFrom_prev. intros; apply reColorAttr_prev.
Qed.

Lemma runLength_notQuote s :
  (runLength notQuote s <? length s)%nat = hasQuote s.
Proof.
  induction s as [|c s IH]; [reflexivity|]. cbn [runLength hasQuote existsb length].
  unfold notQuote at 1. destruct (c =? DQUOTE); cbn [negb orb]; [reflexivity|].
  exact IH.
Qed.

Lemma hasQuote_drop n s : hasQuote (drop n s) = true -> hasQuote s = true.
Proof.
  revert s; induction n as [|n IH]; intros s H; [destruct s; exact H|].
  destruct s as [|c s]; [discriminate|]. cbn [drop] in H.
  cbn [hasQuote existsb]. apply orb_true_iff. right. apply IH, H.
Qed.

(** What a match is made of. *)
Lemma reColorAttr_Some name prev s n :
  reColorAttr name prev s = Some n ->
  startsWithCI (opening name) s = true
  /\ keepsColor (drop (length (opening name)) s) = false
  /\ hasQuote (drop (length (opening name)) s) = true
  /\ n = (length (opening name)
          + runLength notQuote (drop (length (opening name)) s) + 1)%nat.
Proof.
  unfold reColorAttr. fold (opening name).
  destruct (startsWithCI (opening name) s); [|discriminate].
  destruct (keepsColor _); [discriminate|].
  rewrite runLength_notQuote. destruct (hasQuote _); [|discriminate].
  intros [= <-]. auto.
Qed.

Lemma reColorAttr_None name prev s :
  reColorAttr name prev s = None ->
  startsWithCI (opening name) s = false
  \/ keepsColor (drop (length (opening name)) s) = true
  \/ hasQuote (drop (length (opening name)) s) = false.
Proof.
  unfold reColorAttr. fold (opening name).
  destruct (startsWithCI (opening name) s); [|auto].
  destruct (keepsColor _); [auto|].
  rewrite runLength_notQuote. destruct (hasQuote _); [discriminate|auto].
Qed.

Lemma opening_length name : length (opening name) = S (S (length name)).
Proof. unfold opening. rewrite length_app. simpl. lia. Qed.

(** At a match the attribute is replaced and the scan resumes after its
    closing quote. *)
Lemma colorPass_replace name c s n :
  reColorAttr name None (c :: s) = Some n ->
  exists m, n = S m
    /\ (m <= length s)%nat
    /\ colorPass name (c :: s)
       = currentColorAttr name ++ colorPass name (drop m s)
    /\ hasQuote (c :: s) = true.
Proof.
  intros H. pose proof H as H'.
  apply reColorAttr_Some in H' as (Hstart & _ & Hquote & Hn).
  apply startsWithCI_length in Hstart.
  rewrite <- runLength_notQuote in Hquote. apply Nat.ltb_lt in Hquote.
  rewrite length_drop in Hquote.
  exists (length (opening name)
          + runLength notQuote (drop (length (opening name)) (c :: s)))%nat.
  split; [lia|]. split; [simpl in *; lia|]. split.
  - unfold colorPass, replaceAll. rewrite replaceAllFrom_cons, H, Hn.
    rewrite Nat.add_1_r. rewrite replaceAllFrom_skip by (simpl in *; lia).
    f_equal. apply replaceAllFrom_prev. intros; apply reColorAttr_prev.
  - apply reColorAttr_Some in H as (_ & _ & Hq & _).
    exact (hasQuote_drop _ _ Hq).
Qed.

(** *** Text in which no match can start *)

Lemma mismatch_app p x tail :
  mismatch p x = true -> startsWithCI p (x ++ tail) = false.
Proof.
  revert x; induction p as [|a p IH]; intros [|b x] H; try discriminate.
  cbn [mismatch] in H. cbn [app startsWithCI].
  destruct (eqCI a b); cbn [negb orb andb] in *; [apply IH, H | reflexivity].
Qed.

Lemma startsWithCI_app p x tail :
  startsWithCI p x = true -> startsWithCI p (x ++ tail) = true.
Proof.
  revert x; induction p as [|a p IH]; intros [|b x] H; try discriminate;
    try reflexivity.
  cbn [app startsWithCI] in *. apply andb_true_iff in H as [-> H].
  apply IH, H.
Qed.

Lemma keepsColor_app v tail :
  keepsColor v = true -> keepsColor (v ++ tail) = true.
Proof.
  unfold keepsColor. intros H. apply orb_true_iff in H.
  apply orb_true_iff.
  destruct H as [H|H]; [left | right]; apply startsWithCI_app, H.
Qed.

Lemma blockedAt_sound name x tail prev :
  blockedAt name x = true -> reColorAttr name prev (x ++ tail) = None.
Proof.
  unfold blockedAt, reColorAttr. fold (opening name). intros H.
  apply orb_true_iff in H as [H|H].
  - rewrite (mismatch_app _ _ tail H). reflexivity.
  - apply andb_true_iff in H as [Hstart Hkeep].
    rewrite (startsWithCI_app _ _ tail Hstart).
    apply startsWithCI_length in Hstart.
    rewrite drop_app_le by exact Hstart.
    rewrite (keepsColor_app _ tail Hkeep). reflexivity.
Qed.

Lemma occursColor_blocked name x tail :
  allBlocked name x = true ->
  occursColor name (x ++ tail) = occursColor name tail.
Proof.
  induction x as [|c x IH]; [reflexivity|]. cbn [allBlocked]. intros H.
  apply andb_true_iff in H as [Hc H]. cbn [app occursColor].
  change (c :: x ++ tail) with ((c :: x) ++ tail).
  rewrite (blockedAt_sound name (c :: x) tail None Hc). apply IH, H.
Qed.


Lemma occursColor_drop name n s :
  occursColor name s = false -> occursColor name (drop n s) = false.
Proof.
  revert s; induction n as [|n IH]; intros s H; [destruct s; exact H|].
  destruct s as [|c s]; [reflexivity|]. cbn [drop]. apply IH.
  cbn [occursColor] in H.
  destruct (reColorAttr name None (c :: s)); [discriminate | exact H].
Qed.

Section ColorPass.

(** The pass of [name], and the name [other] whose matches are
    followed. *)
Variables name other : list N.
Variable h : N.
Variable name' : list N.
Hypothesis name_head : name = h :: name'.

Lemma match_head c s n :
  reColorAttr name None (c :: s) = Some n -> eqCI h c = true.
Proof.
  intros H. apply reColorAttr_Some in H as (H & _).
  unfold opening in H. rewrite name_head in H. cbn in H.
  apply andb_true_iff in H as [H _]. exact H.
Qed.

Lemma eqCI_trans a b c : eqCI a b = true -> eqCI b c = true -> eqCI a c = true.
Proof. unfold eqCI. rewrite !N.eqb_eq. congruence. Qed.

(** A text without the first letter of [name] that is read in the output
    of the pass is read in its input, and the pass goes on after it. *)
Lemma colorPass_startsWithCI p s :
  avoids h p = true -> startsWithCI p (colorPass name s) = true ->
  startsWithCI p s = true
  /\ drop (length p) (colorPass name s) = colorPass name (drop (length p) s).
Proof.
  revert s; induction p as [|a p IH]; intros s Hp H; [auto|].
  simpl in Hp. apply andb_true_iff in Hp as [Ha Hp].
  destruct s as [|c s]; [rewrite colorPass_nil in H; discriminate|].
  destruct (reColorAttr name None (c :: s)) as [n|] eqn:E.
  - exfalso. destruct (colorPass_replace name c s n E) as (m & _ & _ & Hpass & _).
    rewrite Hpass in H. unfold currentColorAttr in H. rewrite name_head in H.
    cbn [app startsWithCI] in H. apply andb_true_iff in H as [H _].
    rewrite eqCI_sym, H in Ha. discriminate.
  - rewrite colorPass_copy in * by exact E. cbn [startsWithCI] in *.
    apply andb_true_iff in H as [-> H]. cbn [andb length drop].
    exact (IH s Hp H).
Qed.

(** A text without the first letter of [name] that starts the input
    starts the output. *)
Lemma colorPass_keeps p s :
  avoids h p = true -> startsWithCI p s = true ->
  startsWithCI p (colorPass name s) = true.
Proof.
  revert s; induction p as [|a p IH]; intros s Hp H; [reflexivity|].
  simpl in Hp. apply andb_true_iff in Hp as [Ha Hp].
  destruct s as [|c s]; [discriminate|]. cbn [startsWithCI] in H.
  apply andb_true_iff in H as [Hac H].
  destruct (reColorAttr name None (c :: s)) as [n|] eqn:E.
  - exfalso. apply match_head in E.
    rewrite (eqCI_trans h c a) in Ha; [discriminate | exact E|].
    rewrite eqCI_sym. exact Hac.
  - rewrite colorPass_copy by exact E. cbn [startsWithCI].
    rewrite Hac. exact (IH s Hp H).
Qed.

Hypothesis words_avoid :
  avoids h (js "none") = true /\ avoids h (js "currentColor") = true.

Lemma colorPass_keepsColor s :
  keepsColor s = true -> keepsColor (colorPass name s) = true.
Proof.
  unfold keepsColor. intros H. apply orb_true_iff in H.
  apply orb_true_iff. destruct words_avoid as [Hn Hc].
  destruct H as [H|H]; [left | right]; apply colorPass_keeps; assumption.
Qed.

(** A quote of the output comes from a quote of the input. *)
Lemma colorPass_hasQuote_bounded n : forall s,
  (length s <= n)%nat ->
  hasQuote (colorPass name s) = true -> hasQuote s = true.
Proof.
  induction n as [|n IH]; intros s Hn H.
  - destruct s; [|simpl in Hn; lia]. rewrite colorPass_nil in H. discriminate.
  - destruct s as [|c s]; [rewrite colorPass_nil in H; discriminate|].
    destruct (reColorAttr name None (c :: s)) as [k|] eqn:E.
    + destruct (colorPass_replace name c s k E) as (m & _ & _ & _ & Hq).
      exact Hq.
    + rewrite colorPass_copy in H by exact E.
      cbn [hasQuote existsb] in *. apply orb_true_iff in H.
      apply orb_true_iff. destruct H as [H|H]; [left; exact H|].
      right. apply IH; [simpl in Hn; lia | exact H].
Qed.

Lemma colorPass_hasQuote s :
  hasQuote (colorPass name s) = true -> hasQuote s = true.
Proof. apply (colorPass_hasQuote_bounded (length s)). lia. Qed.

Variable o : N.
Variable other' : list N.
Hypothesis other_head : other = o :: other'.
Hypothesis other_avoids : avoids h (other' ++ [EQUALS; DQUOTE]) = true.

(** A match of [other] that starts at a copied code unit of the output
    is a match of the input. *)
Lemma colorPass_match_copied c s n :
  reColorAttr other None (c :: colorPass name s) = Some n ->
  exists n', reColorAttr other None (c :: s) = Some n'.
Proof.
  intros H. apply reColorAttr_Some in H as (Hstart & Hkeep & Hquote & _).
  rewrite opening_length in *. unfold opening in *.
  rewrite other_head in *.
  cbn [app startsWithCI drop length] in *.
  apply andb_true_iff in Hstart as [Hoc Hstart].
  apply colorPass_startsWithCI in Hstart as [Hstart Hdrop];
    [|exact other_avoids].
  rewrite length_app in Hdrop. cbn [length] in Hdrop.
  rewrite Nat.add_comm in Hdrop. cbn [Nat.add] in Hdrop.
  rewrite Hdrop in Hkeep, Hquote.
  apply colorPass_hasQuote in Hquote.
  unfold reColorAttr. cbn [app startsWithCI].
  rewrite Hoc, Hstart. cbn [andb length drop].
  replace (length (other' ++ [EQUALS; DQUOTE])) with (S (S (length other')))
    by (rewrite length_app; simpl; lia).
  destruct (keepsColor (drop (S (S (length other'))) s)) eqn:Hk.
  - rewrite colorPass_keepsColor in Hkeep by exact Hk. discriminate.
  - rewrite runLength_notQuote, Hquote. eauto.
Qed.

Hypothesis inserted_blocked : allBlocked other (currentColorAttr name) = true.

(** The pass leaves no match of its own pattern and creates no match of
    the other pattern. *)
Lemma colorPass_occurs_bounded n : forall s,
  (length s <= n)%nat ->
  other = name \/ occursColor other s = false ->
  occursColor other (colorPass name s) = false.
Proof.
  induction n as [|n IH]; intros s Hn Hs.
  - destruct s; [|simpl in Hn; lia]. rewrite colorPass_nil. reflexivity.
  - destruct s as [|c s]; [rewrite colorPass_nil; reflexivity|].
    simpl in Hn.
    destruct (reColorAttr name None (c :: s)) as [k|] eqn:E.
    + destruct (colorPass_replace name c s k E) as (m & _ & Hm & -> & _).
      rewrite occursColor_blocked by exact inserted_blocked.
      apply IH; [rewrite length_drop; lia|].
      destruct Hs as [Hs|Hs]; [left; exact Hs|]. right.
      apply (occursColor_drop other (S m) (c :: s) Hs).
    + rewrite colorPass_copy by exact E. cbn [occursColor].
      destruct (reColorAttr other None (c :: colorPass name s)) eqn:E2.
      * exfalso. apply colorPass_match_copied in E2 as [n' E2].
        destruct Hs as [Hs|Hs].
        -- rewrite Hs in E2. congruence.
        -- cbn [occursColor] in Hs. rewrite E2 in Hs. discriminate.
      * apply IH; [lia|]. destruct Hs as [Hs|Hs]; [left; exact Hs|].
        right. cbn [occursColor] in Hs.
        destruct (reColorAttr other None (c :: s)); [discriminate | exact Hs].
Qed.

End ColorPass.

(** *** The two passes *)

Lemma colorPass_occurs name other s :
  In name colorNames -> In other colorNames ->
  other = name \/ occursColor other s = false ->
  occursColor other (colorPass name s) = false.
Proof.
  intros Hname Hother.
  destruct Hname as [<-|[<-|[]]]; destruct Hother as [<-|[<-|[]]];
    eapply colorPass_occurs_bounded with (n := length s);
    try (vm_compute; reflexivity); try apply le_n;
    split; vm_compute; reflexivity.
Qed.

Lemma normalizeColors_clean name s :
  In name colorNames -> occursColor name (normalizeColors s) = false.
Proof.
  intros Hname. unfold normalizeColors.
  apply colorPass_occurs; [right; left; reflexivity | exact Hname |].
  destruct Hname as [<-|[<-|[]]].
  - right. apply colorPass_occurs; [left; reflexivity .. | left; reflexivity].
  - left. reflexivity.
Qed.

(** *** An attribute at the position of the scan *)










(** ** C4 *)




(** ** The translator on examples *)

Example translate_names :
  convertSvgAttributesToCamelCase
    (js "<path clip-path=a Fill-Rule=b stroke-width = 3 data-clip-path=c/>")
  = js "<path clipPath=a fillRule=b strokeWidth = 3 data-clipPath=c/>".
Proof. vm_compute. reflexivity. Qed.

Example translate_boundary :
  convertSvgAttributesToCamelCase (js "<a xclip-path=a clip-path:b clip-path/>")
  = js "<a xclip-path=a clip-path:b clip-path/>".
Proof. vm_compute. reflexivity. Qed.

Lemma convertSvgAttributesToCamelCase_idempotent_witness :
  convertSvgAttributesToCamelCase (js "<path clipPath=a strokeWidth=2 />")
  = js "<path clipPath=a strokeWidth=2 />".
Proof.
  apply (proj2 (convertSvgAttributesToCamelCase_idempotent
                  (js "<path clipPath=a strokeWidth=2 />"))).
  intros kebab camel Hin.
  repeat (destruct Hin as [[= <- <-]|Hin]; [vm_compute; reflexivity|]).
  destruct Hin.
Defined.

(** * Further properties *)

(** ** What the sanitizer keeps of a name *)

Lemma isAlnum_nameChar c : isAlnum c = true -> isNameChar c = true.
Proof. unfold isAlnum. cu_lia. Qed.

Lemma isAlnum_separator c : isSeparator c = true -> isAlnum c = false.
Proof. unfold isAlnum. cu_lia. Qed.

Lemma isAlnum_hyphen c : isHyphen c = true -> isAlnum c = false.
Proof. unfold isAlnum. cu_lia. Qed.

Lemma isAlnum_lower c : isAlnum (asciiLower c) = isAlnum c.
Proof. unfold isAlnum. cu_lia. Qed.

Lemma lowerNameChar_alnum c :
  isLowerNameChar c = true -> isHyphen c = false -> isAlnum c = true.
Proof. unfold isAlnum, isLowerNameChar. cu_lia. Qed.

Lemma alnums_drop_run (p : N -> bool) s :
  (forall c, p c = true -> isAlnum c = false) ->
  alnums (drop (runLength p s) s) = alnums s.
Proof.
  intros Hp. induction s as [|c s IH]; [reflexivity|]. cbn [runLength].
  destruct (p c) eqn:E; [|reflexivity].
  cbn [drop]. unfold alnums in *. cbn [List.filter]. rewrite (Hp c E). exact IH.
Qed.

Lemma pass2_alnums n : forall prev s,
  (length s <= n)%nat ->
  alnums (replaceAllFrom reSeparators (js "-") 0 prev s) = alnums s.
Proof.
  induction n as [|n IH]; intros prev s Hn.
  - destruct s; [reflexivity | simpl in Hn; lia].
  - destruct s as [|c s]; [reflexivity|]. simpl in Hn.
    rewrite replaceAllFrom_cons, reSeparators_cons.
    destruct (isSeparator c) eqn:Hc; lazy iota beta.
    + rewrite replaceAllFrom_skip by apply runLength_le.
      change (alnums (js "-" ++ ?x)) with (alnums x).
      rewrite IH by (rewrite length_drop; lia).
      unfold alnums at 2. cbn [List.filter].
      rewrite (isAlnum_separator c Hc).
      apply (alnums_drop_run isSeparator s isAlnum_separator).
    + unfold alnums in *. cbn [List.filter]. rewrite IH by lia. reflexivity.
Qed.

Lemma alnums_nameChars s : alnums (List.filter isNameChar s) = alnums s.
Proof.
  unfold alnums. induction s as [|c s IH]; [reflexivity|]. cbn [List.filter].
  destruct (isNameChar c) eqn:E; cbn [List.filter]; rewrite IH.
  - reflexivity.
  - destruct (isAlnum c) eqn:E'; [|reflexivity].
    rewrite (isAlnum_nameChar c E') in E. discriminate.
Qed.

Lemma alnums_hyphens s : forallb isHyphen s = true -> alnums s = [].
Proof.
  unfold alnums. induction s as [|c s IH]; [reflexivity|]. simpl. intros H.
  apply andb_true_iff in H as [Hc H]. rewrite (isAlnum_hyphen c Hc). auto.
Qed.

Lemma alnums_stripTrailing s : alnums (stripTrailing s) = alnums s.
Proof.
  induction s as [|c s IH]; [reflexivity|]. cbn [stripTrailing].
  destruct (isHyphen c && forallb isHyphen s) eqn:E.
  - apply andb_true_iff in E as [Hc Hs]. symmetry.
    apply (alnums_hyphens (c :: s)). simpl. rewrite Hc, Hs. reflexivity.
  - unfold alnums in *. cbn [List.filter]. rewrite IH. reflexivity.
Qed.

Lemma alnums_collapseHyphens s : alnums (collapseHyphens s) = alnums s.
Proof.
  induction s as [|c s IH]; [reflexivity|]. rewrite collapseHyphens_cons.
  unfold alnums in *. cbn [List.filter].
  destruct (isHyphen c && startsHyphen s) eqn:E.
  - apply andb_true_iff in E as [Hc _]. rewrite (isAlnum_hyphen c Hc). exact IH.
  - cbn [List.filter]. rewrite IH. reflexivity.
Qed.

Lemma alnums_lower s : alnums (map asciiLower s) = map asciiLower (alnums s).
Proof.
  unfold alnums. induction s as [|c s IH]; [reflexivity|].
  cbn [map List.filter]. rewrite isAlnum_lower, IH.
  destruct (isAlnum c); reflexivity.
Qed.

Section SanitizerContent.

Variable host : Host.

Lemma sanitizeFileName_hyphenate filename :
  sanitizeFileName host filename
  = hyphenate host (replaceFirst (reLiteral (js ".svg")) [] filename).
Proof. reflexivity. Qed.

Lemma beforeLowerCase_alnums filename :
  alnums (beforeLowerCase filename)
  = alnums (replaceFirst (reLiteral (js ".svg")) [] filename).
Proof.
  unfold beforeLowerCase. rewrite pass5, alnums_collapseHyphens.
  rewrite pass4, alnums_stripTrailing.
  rewrite (alnums_drop_run isHyphen _ isAlnum_hyphen).
  rewrite pass3, alnums_nameChars.
  apply (pass2_alnums
           (length (replaceFirst (reLiteral (js ".svg")) [] filename))).
  apply le_n.
Qed.

Lemma sanitized_alnums filename :
  alnums (sanitizeFileName host filename)
  = map asciiLower
      (alnums (replaceFirst (reLiteral (js ".svg")) [] filename)).
Proof.
  destruct (beforeLowerCase_shape filename) as (Hn & _).
  unfold sanitizeFileName. fold (beforeLowerCase filename).
  rewrite (toLowerCase_nameChars host _ Hn), alnums_lower.
  rewrite beforeLowerCase_alnums. reflexivity.
Qed.

(** X1: the letters and digits of a sanitized name are those of the file
    name once its first [.svg] is removed, in the same order, in lower
    case; the passes add and remove nothing else than separators. *)
Theorem sanitizeFileName_alnums (filename : str) :
  alnums (sanitizeFileName host filename)
  = map asciiLower
      (alnums (replaceFirst (reLiteral (js ".svg")) [] filename)).
Proof. exact (sanitized_alnums filename). Qed.

(** X2: the sanitized name is empty, and the file is skipped, exactly
    when the file name without its first [.svg] holds no ASCII letter and
    no digit. *)
Theorem sanitizeFileName_empty (filename : str) :
  sanitizeFileName host filename = []
  <-> alnums (replaceFirst (reLiteral (js ".svg")) [] filename) = [].
Proof.
  pose proof (sanitized_alnums filename) as H.
  destruct (sanitizeFileName_shape host filename) as (Hn & Hs & _).
  split; intros E.
  - rewrite E in H. cbn in H. symmetry in H. apply map_eq_nil in H. exact H.
  - rewrite E in H. cbn [map] in H.
    destruct (sanitizeFileName host filename) as [|c t]; [reflexivity|].
    exfalso. simpl in Hn, Hs. apply andb_true_iff in Hn as [Hc _].
    unfold alnums in H. cbn [List.filter] in H.
    rewrite (lowerNameChar_alnum c Hc Hs) in H. discriminate.
Qed.

End SanitizerContent.

(** ** The first occurrence of a literal *)

Lemma startsWith_app lit x t :
  startsWith lit x = true -> startsWith lit (x ++ t) = true.
Proof.
  revert x; induction lit as [|a lit IH]; intros [|b x] H; try discriminate;
    try reflexivity.
  cbn [app startsWith] in *. apply andb_true_iff in H as [-> H]. apply IH, H.
Qed.

Lemma startsWith_self lit t : startsWith lit (lit ++ t) = true.
Proof.
  induction lit as [|a lit IH]; [reflexivity|]. cbn [app startsWith].
  rewrite N.eqb_refl. exact IH.
Qed.

(** A literal whose first code unit does not come again in it cannot
    start in [x] and end in a following copy of itself. *)
Lemma startsWith_straddle a lit x t :
  lacks a lit = true -> x <> [] ->
  startsWith (a :: lit) (x ++ a :: t) = true ->
  startsWith (a :: lit) x = true.
Proof.
  intros Hlit Hx H. destruct x as [|b x]; [congruence|]. clear Hx.
  cbn [app startsWith] in *. apply andb_true_iff in H as [-> H]. cbn [andb].
  revert x H. induction lit as [|c lit IH]; intros x H; [reflexivity|].
  simpl in Hlit. apply andb_true_iff in Hlit as [Hc Hlit].
  destruct x as [|d x]; cbn [app startsWith] in *;
    apply andb_true_iff in H as [Hcd H].
  - rewrite Hcd in Hc. discriminate.
  - rewrite Hcd. exact (IH Hlit x H).
Qed.

Lemma replaceFirstFrom_unfold m rep prev s :
  replaceFirstFrom m rep prev s
  = match m prev s with
    | Some n => rep ++ drop n s
    | None =>
        match s with
        | [] => []
        | c :: s' => c :: replaceFirstFrom m rep (Some c) s'
        end
    end.
Proof. destruct s; reflexivity. Qed.

Lemma replaceFirst_first a lit prev x t :
  lacks a lit = true -> includes (a :: lit) x = false ->
  replaceFirstFrom (reLiteral (a :: lit)) [] prev (x ++ (a :: lit) ++ t)
  = x ++ t.
Proof.
  intros Hlit. revert prev; induction x as [|b x IH]; intros prev Hx.
  - rewrite replaceFirstFrom_unfold. unfold reLiteral at 1. cbn [app].
    change (a :: lit ++ t) with ((a :: lit) ++ t).
    rewrite startsWith_self, drop_app_length. reflexivity.
  - cbn [includes] in Hx. apply orb_false_iff in Hx as [Hhead Hx].
    rewrite replaceFirstFrom_unfold. unfold reLiteral at 1.
    destruct (startsWith (a :: lit) ((b :: x) ++ (a :: lit) ++ t)) eqn:E.
    + apply (startsWith_straddle a lit (b :: x) (lit ++ t) Hlit) in E;
        [congruence | discriminate].
    + cbn [app]. rewrite IH by exact Hx. reflexivity.
Qed.

Section FirstSvg.

Variable host : Host.

(** X3: of a file name only the first [.svg] is removed, wherever it
    stands; what follows it, a later [.svg] included, is sanitized with
    the rest of the name. *)
Theorem sanitizeFileName_first_svg (stem rest : str) :
  includes (js ".svg") stem = false ->
  sanitizeFileName host (stem ++ js ".svg" ++ rest)
  = hyphenate host (stem ++ rest).
Proof.
  intros H. rewrite sanitizeFileName_hyphenate. f_equal.
  exact (replaceFirst_first 46 (js "svg") None stem rest eq_refl H).
Qed.

End FirstSvg.

Lemma sanitizeFileName_first_svg_witness :
  sanitizeFileName (exampleHost [] (fun _ => None))
    (js "icon" ++ js ".svg" ++ js ".backup.svg")
  = js "icon-backup-svg".
Proof.
  rewrite (sanitizeFileName_first_svg (exampleHost [] (fun _ => None))
             (js "icon") (js ".backup.svg")).
  - vm_compute. reflexivity.
  - vm_compute. reflexivity.
Defined.

(** ** Pascal case and camel case *)

Lemma asciiLower_upper c :
  isLowerNameChar c = true -> asciiLower (asciiUpper c) = c.
Proof. unfold isLowerNameChar. cu_lia. Qed.

Lemma asciiUpper_ascii c : isAscii c = true -> isAscii (asciiUpper c) = true.
Proof. cu_lia. Qed.

Lemma asciiUpper_digit c : isDigit c = true -> asciiUpper c = c.
Proof. cu_lia. Qed.

Lemma isDigit_ascii c : isDigit c = true -> isAscii c = true.
Proof. cu_lia. Qed.

Lemma isDigit_notHyphen c : isDigit c = true -> (c =? HYPHEN) = false.
Proof. cu_lia. Qed.

Lemma asciiUpper_inj c d :
  isLowerNameChar c = true -> isLowerNameChar d = true ->
  asciiUpper c = asciiUpper d -> c = d.
Proof. unfold isLowerNameChar. cu_lia. Qed.

Lemma notHyphen_alnum c :
  isLowerNameChar c = true -> notHyphen c = isAlnum c.
Proof. unfold notHyphen, isAlnum, isLowerNameChar. cu_lia. Qed.

Section Casing.

Variable host : Host.

Lemma toUpperCase_nil : toUpperCase host [] = [].
Proof. reflexivity. Qed.

Lemma toUpperCase_ascii c :
  isAscii c = true -> toUpperCase host [c] = [asciiUpper c].
Proof. intros H. unfold toUpperCase. cbn [forallb]. rewrite H. reflexivity. Qed.

Lemma toLowerCase_ascii c :
  isAscii c = true -> toLowerCase host [c] = [asciiLower c].
Proof. intros H. unfold toLowerCase. cbn [forallb]. rewrite H. reflexivity. Qed.

Lemma toPascalCase_split s :
  toPascalCase host s = concat (map (capitalize host) (split HYPHEN s)).
Proof. reflexivity. Qed.

Lemma split_cons c s :
  split HYPHEN (c :: s)
  = if c =? HYPHEN then [] :: split HYPHEN s
    else match split HYPHEN s with
         | w :: ws => (c :: w) :: ws
         | [] => [[c]]
         end.
Proof. reflexivity. Qed.

Lemma split_nonempty s : split HYPHEN s <> [].
Proof.
  destruct s as [|c s]; [discriminate|]. rewrite split_cons.
  destruct (c =? HYPHEN); [discriminate|].
  destruct (split HYPHEN s); discriminate.
Qed.

(** A code unit that is not a hyphen goes to the first word. *)
Lemma toPascalCase_cons c s :
  (c =? HYPHEN) = false ->
  toPascalCase host (c :: s) = toUpperCase host [c] ++ joinWords host s
  /\ joinWords host (c :: s) = c :: joinWords host s.
Proof.
  intros Hc. rewrite toPascalCase_split. unfold joinWords.
  rewrite split_cons, Hc.
  destruct (split HYPHEN s) as [|w ws] eqn:E;
    [destruct (split_nonempty s E)|].
  cbn [map concat]. unfold capitalize at 1. cbn [charAt0 slice1 take drop].
  rewrite drop_0, <- app_assoc. split; reflexivity.
Qed.

(** A hyphen closes the first word, which is empty. *)
Lemma toPascalCase_hyphen s :
  toPascalCase host (HYPHEN :: s) = toPascalCase host s
  /\ joinWords host (HYPHEN :: s) = toPascalCase host s.
Proof.
  rewrite !toPascalCase_split. unfold joinWords. rewrite split_cons.
  replace (HYPHEN =? HYPHEN) with true by reflexivity.
  cbn [map concat app]. split; reflexivity.
Qed.

(** *** A hyphen before a digit *)

Lemma joinWords_hyphen_digit_bounded a d b :
  isDigit d = true ->
  toPascalCase host (a ++ HYPHEN :: d :: b) = toPascalCase host (a ++ d :: b)
  /\ joinWords host (a ++ HYPHEN :: d :: b) = joinWords host (a ++ d :: b).
Proof.
  intros Hd. pose proof (isDigit_notHyphen d Hd) as Hnh.
  induction a as [|c a [IHp IHj]].
  - cbn [app].
    destruct (toPascalCase_hyphen (d :: b)) as [-> ->].
    destruct (toPascalCase_cons d b Hnh) as [-> ->].
    rewrite (toUpperCase_ascii d (isDigit_ascii d Hd)), (asciiUpper_digit d Hd).
    split; reflexivity.
  - cbn [app]. destruct (c =? HYPHEN) eqn:Hc.
    + apply N.eqb_eq in Hc. subst c.
      destruct (toPascalCase_hyphen (a ++ HYPHEN :: d :: b)) as [-> ->].
      destruct (toPascalCase_hyphen (a ++ d :: b)) as [-> ->].
      split; exact IHp.
    + destruct (toPascalCase_cons c (a ++ HYPHEN :: d :: b) Hc) as [-> ->].
      destruct (toPascalCase_cons c (a ++ d :: b) Hc) as [-> ->].
      rewrite IHj. split; reflexivity.
Qed.

(** X6: a hyphen before a digit leaves no trace in the Pascal-case form:
    [icon-2] and [icon2] give the same component name. *)
Theorem toPascalCase_hyphen_digit (a b : str) (d : cu) :
  isDigit d = true ->
  toPascalCase host (a ++ HYPHEN :: d :: b) = toPascalCase host (a ++ d :: b).
Proof. intros Hd. apply (joinWords_hyphen_digit_bounded a d b Hd). Qed.

(** *** On a sanitized name *)

Lemma lowered_names s :
  forallb isLowerNameChar s = true ->
  map asciiLower (toPascalCase host s) = List.filter notHyphen s
  /\ map asciiLower (joinWords host s) = List.filter notHyphen s.
Proof.
  induction s as [|c s IH]; intros H; [split; reflexivity|].
  simpl in H. apply andb_true_iff in H as [Hc H].
  destruct (IH H) as [IHp IHj]. cbn [List.filter].
  assert (Hn : notHyphen c = negb (c =? HYPHEN)) by reflexivity.
  rewrite Hn. destruct (c =? HYPHEN) eqn:E.
  - apply N.eqb_eq in E. subst c. cbn [negb].
    destruct (toPascalCase_hyphen s) as [-> ->]. split; exact IHp.
  - cbn [negb]. destruct (toPascalCase_cons c s E) as [-> ->].
    rewrite (toUpperCase_ascii c
               (nameChar_ascii c (lowerNameChar_nameChar c Hc))).
    cbn [app map]. rewrite IHj, (asciiLower_upper c Hc),
      (lowerNameChar_fixed c Hc).
    split; reflexivity.
Qed.

(** X4: on a name of lowercase letters, digits and hyphens, Pascal case
    removes the hyphens and changes the case of letters, nothing else. *)
Theorem toPascalCase_letters (name : str) :
  forallb isLowerNameChar name = true ->
  map asciiLower (toPascalCase host name) = List.filter notHyphen name.
Proof. intros H. apply (lowered_names name H). Qed.

(** The two forms of a name that starts with a letter or a digit differ
    in the case of their first code unit. *)
Lemma pascal_camel c s :
  isLowerNameChar c = true -> isHyphen c = false ->
  toPascalCase host (c :: s) = asciiUpper c :: joinWords host s
  /\ toCamelCase host (c :: s) = c :: joinWords host s.
Proof.
  intros Hc Hh.
  pose proof (nameChar_ascii c (lowerNameChar_nameChar c Hc)) as Ha.
  unfold toCamelCase. destruct (toPascalCase_cons c s Hh) as [-> _].
  rewrite (toUpperCase_ascii c Ha). cbn [app charAt0 slice1 take drop].
  rewrite take_0, drop_0, (toLowerCase_ascii _ (asciiUpper_ascii c Ha)).
  rewrite (asciiLower_upper c Hc). split; reflexivity.
Qed.

End Casing.

Lemma toPascalCase_hyphen_digit_witness :
  toPascalCase (exampleHost [] (fun _ => None))
    (js "icon" ++ HYPHEN :: 50 :: [])
  = toPascalCase (exampleHost [] (fun _ => None)) (js "icon" ++ 50 :: []).
Proof.
  apply (toPascalCase_hyphen_digit (exampleHost [] (fun _ => None))
           (js "icon") [] 50).
  reflexivity.
Defined.

Lemma toPascalCase_letters_witness :
  map asciiLower
    (toPascalCase (exampleHost [] (fun _ => None)) (js "arrow-left"))
  = List.filter notHyphen (js "arrow-left").
Proof.
  apply (toPascalCase_letters (exampleHost [] (fun _ => None))
           (js "arrow-left")).
  vm_compute. reflexivity.
Defined.

(** ** Processed icons *)

Section Icons.

Variable host : Host.

Lemma processIcon_Some (config : SvgifyConfig host) file icon :
  processIcon host file config = Some icon ->
  endsWith file (js ".svg") = true
  /\ sanitizeFileName host file <> []
  /\ originalFile icon = file
  /\ sanitizedName icon = sanitizeFileName host file
  /\ componentName icon
     = toPascalCase host (sanitizeFileName host file) ++ js "Icon"
  /\ camelCaseName icon = toCamelCase host (sanitizeFileName host file).
Proof.
  unfold processIcon. destruct (endsWith file (js ".svg")); [|discriminate].
  cbn [negb]. destruct (readFileSync host _); [|discriminate].
  destruct (optimize host _ _); [|discriminate].
  destruct (sanitizeFileName host file) eqn:E; [discriminate|].
  cbn [isEmpty]. intros [= <-]. cbn. repeat split. discriminate.
Qed.

Lemma forallb_alnum_lower s :
  forallb isAlnum (map asciiLower s) = forallb isAlnum s.
Proof.
  induction s as [|c s IH]; [reflexivity|]. cbn [map forallb].
  rewrite isAlnum_lower, IH. reflexivity.
Qed.

Lemma filter_notHyphen_alnums s :
  forallb isLowerNameChar s = true -> List.filter notHyphen s = alnums s.
Proof.
  unfold alnums. induction s as [|c s IH]; [reflexivity|]. simpl. intros H.
  apply andb_true_iff in H as [Hc H].
  rewrite (notHyphen_alnum c Hc), IH by exact H. reflexivity.
Qed.

(** The two names of a sanitized name that is not empty. *)
Lemma names_of_sanitized file :
  sanitizeFileName host file <> [] ->
  exists c tail,
    isLowerNameChar c = true /\ isHyphen c = false
    /\ toPascalCase host (sanitizeFileName host file) = asciiUpper c :: tail
    /\ toCamelCase host (sanitizeFileName host file) = c :: tail
    /\ forallb isAlnum (asciiUpper c :: tail) = true
    /\ map asciiLower (asciiUpper c :: tail)
       = map asciiLower
           (alnums (replaceFirst (reLiteral (js ".svg")) [] file)).
Proof.
  intros Hne.
  destruct (sanitizeFileName_shape host file) as (Hn & Hs & _).
  pose proof (sanitized_alnums host file) as Hal.
  pose proof (proj1 (lowered_names host _ Hn)) as Hlow.
  destruct (sanitizeFileName host file) as [|c s] eqn:E; [congruence|].
  pose proof Hn as Hn'. simpl in Hn', Hs.
  apply andb_true_iff in Hn' as [Hc _].
  destruct (pascal_camel host c s Hc Hs) as [Hp Hcm].
  exists c, (joinWords host s). rewrite <- Hp.
  rewrite (filter_notHyphen_alnums _ Hn) in Hlow.
  repeat split; try assumption.
  - rewrite <- forallb_alnum_lower, Hlow. apply forallb_filter_same.
  - rewrite Hlow. exact Hal.
Qed.

Lemma processed_names (config : SvgifyConfig host) file icon :
  processIcon host file config = Some icon ->
  forallb isAlnum (componentName icon) = true
  /\ forallb isAlnum (camelCaseName icon) = true
  /\ camelCaseName icon <> []
  /\ map asciiLower (componentName icon)
     = map asciiLower (alnums (replaceFirst (reLiteral (js ".svg")) [] file))
       ++ js "icon".
Proof.
  intros H. apply processIcon_Some in H as (_ & Hne & _ & _ & -> & ->).
  destruct (names_of_sanitized file Hne)
    as (c & tail & Hc & Hh & -> & -> & Hal & Hlow).
  repeat split.
  - rewrite forallb_app, Hal. reflexivity.
  - cbn [forallb] in *. apply andb_true_iff in Hal as [_ ->].
    rewrite (lowerNameChar_alnum c Hc Hh). reflexivity.
  - discriminate.
  - rewrite map_app, Hlow. reflexivity.
Qed.

(** X7: the component name of a processed icon is made of ASCII letters
    and digits only, so is its registry key, which is not empty; read in
    lower case the component name is the letters and digits of the file
    name without its first [.svg], followed by [icon]. *)
Theorem processIcon_names (config : SvgifyConfig host) (file : str)
    (icon : ProcessedIcon) :
  processIcon host file config = Some icon ->
  forallb isAlnum (componentName icon) = true
  /\ forallb isAlnum (camelCaseName icon) = true
  /\ camelCaseName icon <> []
  /\ map asciiLower (componentName icon)
     = map asciiLower (alnums (replaceFirst (reLiteral (js ".svg")) [] file))
       ++ js "icon".
Proof. exact (processed_names config file icon). Qed.

(** X5: two processed icons have the same registry key exactly when they
    have the same component name, hence the same component file. *)
Theorem camelCaseName_componentName (config1 config2 : SvgifyConfig host)
    (file1 file2 : str) (icon1 icon2 : ProcessedIcon) :
  processIcon host file1 config1 = Some icon1 ->
  processIcon host file2 config2 = Some icon2 ->
  (camelCaseName icon1 = camelCaseName icon2
   <-> componentName icon1 = componentName icon2).
Proof.
  intros H1 H2.
  apply processIcon_Some in H1 as (_ & Hne1 & _ & _ & -> & ->).
  apply processIcon_Some in H2 as (_ & Hne2 & _ & _ & -> & ->).
  destruct (names_of_sanitized file1 Hne1)
    as (c1 & t1 & Hc1 & _ & -> & -> & _).
  destruct (names_of_sanitized file2 Hne2)
    as (c2 & t2 & Hc2 & _ & -> & -> & _).
  split.
  - intros [= -> ->]. reflexivity.
  - intros H. apply app_inv_tail in H. injection H as Hc ->.
    rewrite (asciiUpper_inj c1 c2 Hc1 Hc2 Hc). reflexivity.
Qed.

(** X8: the processed icons are those of the files for which
    [processIcon] returns a record, in the order of the listing. *)
Theorem processAll_order (config : SvgifyConfig host) (files : list str) :
  map originalFile (processAll host files config)
  = List.filter (isProcessed host config) files.
Proof.
  induction files as [|f files IH]; [reflexivity|].
  rewrite processAll_cons. cbn [List.filter]. unfold isProcessed at 1.
  destruct (processIcon host f config) as [icon|] eqn:E; [|exact IH].
  cbn [map]. rewrite IH.
  apply processIcon_Some in E as (_ & _ & -> & _). reflexivity.
Qed.

End Icons.

Lemma processIcon_names_witness :
  forallb isAlnum (componentName userIcon1) = true
  /\ forallb isAlnum (camelCaseName userIcon1) = true
  /\ camelCaseName userIcon1 <> []
  /\ map asciiLower (componentName userIcon1)
     = map asciiLower
         (alnums (replaceFirst (reLiteral (js ".svg")) []
                    (js "user-icon.svg")))
       ++ js "icon".
Proof.
  apply (processIcon_names collidingHost (exampleConfig collidingHost)
           (js "user-icon.svg") userIcon1).
  vm_compute. reflexivity.
Defined.

Lemma camelCaseName_componentName_witness :
  camelCaseName userIcon1 = camelCaseName userIcon2
  <-> componentName userIcon1 = componentName userIcon2.
Proof.
  apply (camelCaseName_componentName collidingHost
           (exampleConfig collidingHost) (exampleConfig collidingHost)
           (js "user-icon.svg") (js "user_icon.svg") userIcon1 userIcon2).
  - vm_compute. reflexivity.
  - vm_compute. reflexivity.
Defined.

(** ** How a run ends *)

Section Runs.

Variable host : Host.

Lemma filter_nil_Forall {A} (p : A -> bool) l :
  List.filter p l = [] <-> Forall (fun x => p x = false) l.
Proof.
  induction l as [|x l IH]; [split; [constructor | reflexivity]|].
  cbn [List.filter]. destruct (p x) eqn:E.
  - split; [discriminate|]. intros H. inversion H; congruence.
  - rewrite IH. split; [intros H; constructor; assumption|].
    intros H. inversion H; assumption.
Qed.

Lemma processAll_nil (config : SvgifyConfig host) files :
  processAll host files config = []
  <-> Forall (fun file => processIcon host file config = None) files.
Proof.
  induction files as [|f files IH]; [split; [constructor | reflexivity]|].
  rewrite processAll_cons. destruct (processIcon host f config) eqn:E.
  - split; [discriminate|]. intros H. inversion H; congruence.
  - rewrite IH. split; [intros H; constructor; assumption|].
    intros H. inversion H; assumption.
Qed.

Lemma generate_unfold (userConfig : SvgifyConfig host) :
  generate host userConfig
  = if isEmpty (inputDir host userConfig)
       || isEmpty (outputDir host userConfig)
    then ConfigurationError
    else
      match svgFilesOf host (mergeDefaults host userConfig) with
      | [] => NoSvgFiles
      | _ :: _ =>
          match processAll host
                  (svgFilesOf host (mergeDefaults host userConfig))
                  (mergeDefaults host userConfig) with
          | [] => NoIconProcessed
          | icon :: icons =>
              Completed
                (emit host (icon :: icons) (mergeDefaults host userConfig))
                (match postGenerate host userConfig with
                 | Some (c :: s) => Some (c :: s)
                 | _ => None
                 end)
          end
      end.
Proof.
  unfold generate, svgFilesOf. destruct (_ || _); [reflexivity|].
  destruct (List.filter _ _) as [|f fs]; [reflexivity|].
  cbn [length Nat.eqb].
  destruct (processAll host (f :: fs) _) as [|i rest]; [reflexivity|].
  cbn [length Nat.eqb mergeDefaults postGenerate].
  destruct (postGenerate host userConfig) as [[|c s]|]; reflexivity.
Qed.

Lemma generate_given (userConfig : SvgifyConfig host) :
  inputDir host userConfig <> [] -> outputDir host userConfig <> [] ->
  generate host userConfig <> ConfigurationError.
Proof.
  intros Hi Ho. rewrite generate_unfold.
  destruct (inputDir host userConfig); [congruence|].
  destruct (outputDir host userConfig); [congruence|].
  cbn [isEmpty orb]. destruct (svgFilesOf _ _); [discriminate|].
  destruct (processAll _ _ _); discriminate.
Qed.

(** X9: a run ends with the configuration error exactly when one of the
    two directories is missing from the configuration, whatever the
    input directory holds; it stops for want of [.svg] files exactly
    when, the directories being given, no entry of the listing ends in
    [.svg]; it stops for want of icons exactly when there are such
    entries and [processIcon] returns [null] for every one; otherwise it
    completes, and runs the post-generate command exactly when one is
    configured that is not the empty string. *)
Theorem generate_outcome (userConfig : SvgifyConfig host) :
  let config := mergeDefaults host userConfig in
  let given :=
    inputDir host userConfig <> [] /\ outputDir host userConfig <> [] in
  (generate host userConfig = ConfigurationError <-> ~ given)
  /\ (generate host userConfig = NoSvgFiles
      <-> given
          /\ Forall (fun file => endsWith file (js ".svg") = false)
               (readdirSync host (inputDir host userConfig)))
  /\ (generate host userConfig = NoIconProcessed
      <-> given /\ svgFilesOf host config <> []
          /\ Forall (fun file => processIcon host file config = None)
               (svgFilesOf host config))
  /\ (forall writes command,
        generate host userConfig = Completed writes command ->
        command
        = match postGenerate host userConfig with
          | Some (c :: s) => Some (c :: s)
          | _ => None
          end).
Proof.
  cbv zeta. rewrite generate_unfold.
  pose proof (filter_nil_Forall (fun file => endsWith file (js ".svg"))
                (readdirSync host (inputDir host userConfig))) as Hfiles.
  pose proof (processAll_nil (mergeDefaults host userConfig)
                (svgFilesOf host (mergeDefaults host userConfig))) as Hicons.
  unfold svgFilesOf in *. cbn [mergeDefaults inputDir] in *.
  destruct (inputDir host userConfig) as [|a din].
  { cbn [isEmpty orb].
    split; [|split; [|split]]; try (split; [discriminate|tauto]).
    - split; [tauto | reflexivity].
    - intros ? ? H; discriminate H. }
  destruct (outputDir host userConfig) as [|b dout].
  { cbn [isEmpty orb].
    split; [|split; [|split]]; try (split; [discriminate|tauto]).
    - split; [tauto | reflexivity].
    - intros ? ? H; discriminate H. }
  cbn [isEmpty orb].
  assert (Hgiven : a :: din <> [] /\ b :: dout <> [])
    by (split; discriminate).
  destruct (List.filter _ _) as [|f fs] eqn:Ef.
  { split; [|split; [|split]].
    - split; [discriminate | tauto].
    - split; [intros _; split; [exact Hgiven | apply Hfiles; reflexivity]
             | reflexivity].
    - split; [discriminate | tauto].
    - intros ? ? H; discriminate H. }
  assert (Hsome : ~ Forall (fun file => endsWith file (js ".svg") = false)
                      (readdirSync host (a :: din)))
    by (intros H; apply Hfiles in H; discriminate).
  destruct (processAll host (f :: fs) _) as [|i rest] eqn:Ei.
  { split; [|split; [|split]].
    - split; [discriminate | tauto].
    - split; [discriminate | tauto].
    - split; [intros _; repeat split; try discriminate;
              apply Hicons; reflexivity | reflexivity].
    - intros ? ? H; discriminate H. }
  split; [|split; [|split]].
  - split; [discriminate | tauto].
  - split; [discriminate | tauto].
  - split; [discriminate|]. intros (_ & _ & H). apply Hicons in H.
    discriminate.
  - intros writes command [= _ <-]. reflexivity.
Qed.

Lemma registryMode_index (icons : list ProcessedIcon)
    (config : SvgifyConfig host) :
  modeOf host config = registry ->
  generateIndexFile host icons config
  = js "// Auto-generated file - DO NOT EDIT" ++ [NEWLINE]
    ++ registryExports ++ [NEWLINE].
Proof. intros H. unfold generateIndexFile. rewrite H. reflexivity. Qed.

(** X10: in mode [registry] a completed run still writes one component
    file per processed icon, before the registry, the wrapper and the
    index; the index then holds the registry export group alone and is
    the same whatever the icons are. *)
Theorem generate_registry_mode (userConfig : SvgifyConfig host)
    (writes : list Write) (command : option (list N)) :
  generate host userConfig = Completed writes command ->
  modeOf host (mergeDefaults host userConfig) = registry ->
  let config := mergeDefaults host userConfig in
  let icons := processAll host (svgFilesOf host config) config in
  let ext := getFileExtension (isTS host config) in
  let out := pathJoin host (outputDir host config) in
  writes
  = map (fun icon => (out (componentFile ext icon),
                      generateIconComponent host icon config)) icons
    ++ [ (out (js "IconRegistry." ++ ext),
          generateIconRegistry host icons config);
         (out (js "Icon." ++ ext), generateIconWrapper host config);
         (out (indexFile ext),
          js "// Auto-generated file - DO NOT EDIT" ++ [NEWLINE]
          ++ registryExports ++ [NEWLINE]) ].
Proof.
  intros Hrun Hmode. cbv zeta. apply generate_completed in Hrun.
  rewrite Hrun. fold (svgFilesOf host (mergeDefaults host userConfig)).
  rewrite emit_both by (rewrite Hmode; reflexivity).
  rewrite (registryMode_index _ _ Hmode). reflexivity.
Qed.

(** X11: every file of a completed run is written directly in the output
    directory, under a name made of letters and digits, one dot and an
    extension; no write goes anywhere else. *)
Theorem generate_paths (userConfig : SvgifyConfig host)
    (writes : list Write) (command : option (list N)) :
  generate host userConfig = Completed writes command ->
  forall w, In w writes ->
    exists name,
      w.1 = pathJoin host (outputDir host userConfig) name
      /\ plainFileName name.
Proof.
  intros Hrun w Hin. apply generate_completed in Hrun.
  set (config := mergeDefaults host userConfig) in *.
  assert (Hext : In (getFileExtension (isTS host config))
                    [js "tsx"; js "jsx"; js "ts"; js "js"])
    by (destruct (isTS host config); simpl; auto).
  assert (Hidx : In (if bool_decide (getFileExtension (isTS host config)
                                     = js "tsx")
                     then js "ts" else js "js")
                    [js "tsx"; js "jsx"; js "ts"; js "js"])
    by (destruct (bool_decide _); simpl; auto).
  rewrite Hrun in Hin. unfold emit in Hin.
  apply in_app_or in Hin as [Hin|Hin]; [|apply in_app_or in Hin as [Hin|Hin]].
  - apply in_map_iff in Hin as (icon & <- & Hin). cbn [fst].
    exists (componentName icon ++ js "."
            ++ getFileExtension (isTS host config)).
    split; [reflexivity|].
    apply processAll_In in Hin as (file & _ & Hfile).
    apply processed_names in Hfile as (Hal & _).
    exists (componentName icon), (getFileExtension (isTS host config)). auto.
  - destruct (includesRegistry (modeOf host config)); [|destruct Hin].
    destruct Hin as [<-|[<-|[]]]; cbn [fst].
    + exists (js "IconRegistry." ++ getFileExtension (isTS host config)).
      split; [reflexivity|].
      exists (js "IconRegistry"), (getFileExtension (isTS host config)). auto.
    + exists (js "Icon." ++ getFileExtension (isTS host config)).
      split; [reflexivity|].
      exists (js "Icon"), (getFileExtension (isTS host config)). auto.
  - destruct Hin as [<-|[]]. cbn [fst]. eexists. split; [reflexivity|].
    exists (js "index"), (if bool_decide (getFileExtension (isTS host config)
                                         = js "tsx")
                          then js "ts" else js "js"). auto.
Qed.

End Runs.

Lemma generate_registry_mode_witness :
  map fst (writesOf (generate twoIconsHost (registryConfig twoIconsHost)))
  = [js "./src/icons/HomeIcon.tsx"; js "./src/icons/ArrowLeftIcon.tsx";
     js "./src/icons/IconRegistry.tsx"; js "./src/icons/Icon.tsx";
     js "./src/icons/index.ts"].
Proof.
  rewrite (generate_registry_mode twoIconsHost (registryConfig twoIconsHost)
             (writesOf (generate twoIconsHost (registryConfig twoIconsHost)))
             None).
  - vm_compute. reflexivity.
  - vm_compute. reflexivity.
  - reflexivity.
Defined.

Lemma generate_paths_witness :
  exists name,
    js "./src/icons/index.ts"
    = pathJoin twoIconsHost
        (outputDir twoIconsHost (exampleConfig twoIconsHost)) name
    /\ plainFileName name.
Proof.
  apply (generate_paths twoIconsHost (exampleConfig twoIconsHost)
           (writesOf (generate twoIconsHost (exampleConfig twoIconsHost)))
           None)
    with (w := (js "./src/icons/index.ts",
                generateIndexFile twoIconsHost
                  (processAll twoIconsHost
                     (svgFilesOf twoIconsHost (exampleConfig twoIconsHost))
                     (exampleConfig twoIconsHost))
                  (exampleConfig twoIconsHost))).
  - vm_compute. reflexivity.
  - vm_compute. do 4 right. left. reflexivity.
Defined.

(** ** The wrapper of an ordinary optimiser output *)

Lemma runLength_until (p : N -> bool) x q rest :
  forallb p x = true -> p q = false ->
  runLength p (x ++ q :: rest) = length x.
Proof.
  intros Hx Hq. induction x as [|c x IH]; simpl.
  - rewrite Hq. reflexivity.
  - simpl in Hx. apply andb_true_iff in Hx as [-> Hx].
    rewrite IH by exact Hx. reflexivity.
Qed.

Lemma reSvgOpen_tag attrs rest :
  lacks GT attrs = true ->
  reSvgOpen None (js "<svg" ++ attrs ++ GT :: rest)
  = Some (4 + length attrs + 1)%nat.
Proof.
  intros H. unfold reSvgOpen.
  rewrite (startsWith_self (js "<svg") (attrs ++ GT :: rest)).
  change (drop 4 (js "<svg" ++ attrs ++ GT :: rest))
    with (attrs ++ GT :: rest).
  rewrite (runLength_until _ attrs GT rest H eq_refl).
  replace (length attrs <? length (attrs ++ GT :: rest))%nat with true;
    [reflexivity|].
  symmetry. apply Nat.ltb_lt. rewrite length_app. simpl. lia.
Qed.

(** X12: when the optimiser output is one [svg] element, its opening tag
    free of [>] inside and its content free of [</svg>], what is kept is
    the content, with what follows the closing tag, trimmed. *)
Theorem stripSvgWrapper_element (attrs inner post : str) :
  lacks GT attrs = true -> includes (js "</svg>") inner = false ->
  stripSvgWrapper
    (js "<svg" ++ attrs ++ [GT] ++ inner ++ js "</svg>" ++ post)
  = trim (inner ++ post).
Proof.
  intros Hattrs Hinner. unfold stripSvgWrapper. f_equal.
  unfold replaceFirst at 2. rewrite replaceFirstFrom_unfold.
  change ([GT] ++ inner ++ js "</svg>" ++ post)
    with (GT :: inner ++ js "</svg>" ++ post).
  rewrite (reSvgOpen_tag attrs _ Hattrs). cbn [app].
  replace (drop (4 + length attrs + 1)
             (js "<svg" ++ attrs ++ GT :: inner ++ js "</svg>" ++ post))
    with (inner ++ js "</svg>" ++ post).
  - exact (replaceFirst_first 60 (js "/svg>") None inner post eq_refl Hinner).
  - change (js "<svg" ++ attrs ++ GT :: inner ++ js "</svg>" ++ post)
      with (js "<svg" ++ (attrs ++ GT :: inner ++ js "</svg>" ++ post)).
    replace (4 + length attrs + 1)%nat with (4 + (length attrs + 1))%nat
      by lia.
    rewrite <- drop_drop.
    change (drop 4 (js "<svg" ++ (attrs ++ GT :: inner ++ js "</svg>" ++ post)))
      with (attrs ++ GT :: inner ++ js "</svg>" ++ post).
    rewrite <- drop_drop, drop_app_length. reflexivity.
Qed.

Lemma stripSvgWrapper_element_witness :
  stripSvgWrapper
    (js "<svg" ++ js " viewBox='0 0 24 24'" ++ [GT]
     ++ js " <path d='M0 0'/> " ++ js "</svg>" ++ [NEWLINE])
  = js "<path d='M0 0'/>".
Proof.
  rewrite (stripSvgWrapper_element (js " viewBox='0 0 24 24'")
             (js " <path d='M0 0'/> ") [NEWLINE]).
  - vm_compute. reflexivity.
  - vm_compute. reflexivity.
  - vm_compute. reflexivity.
Defined.

(** ** White space around the inner markup *)

Lemma startsSpace_dropSpaces s : startsSpace (dropSpaces s) = false.
Proof.
  unfold dropSpaces. pose proof (runLength_stop isSpace s) as H.
  destruct (drop _ s); [reflexivity | exact H].
Qed.

Lemma dropSpaces_id s : startsSpace s = false -> dropSpaces s = s.
Proof.
  unfold dropSpaces. destruct s as [|c s]; [reflexivity|]. simpl.
  intros ->. reflexivity.
Qed.

Lemma last_drop (n : nat) (s : list N) :
  drop n s <> [] -> last (drop n s) = last s.
Proof.
  revert s; induction n as [|n IH]; intros s H; [rewrite drop_0; reflexivity|].
  destruct s as [|c s]; [reflexivity|]. cbn [drop] in *.
  rewrite (IH s H). destruct s as [|d s]; [|reflexivity].
  rewrite drop_nil in H. congruence.
Qed.

Lemma head_rev (s : list N) : head (rev s) = last s.
Proof.
  rewrite <- (rev_involutive s) at 2. generalize (rev s) as t. clear s.
  intros [|c t]; [reflexivity|]. cbn [rev head].
  rewrite last_snoc. reflexivity.
Qed.

Lemma startsSpace_head s :
  startsSpace s = match head s with Some c => isSpace c | None => false end.
Proof. destruct s; reflexivity. Qed.

Lemma trim_ends s : startsSpace (trim s) = false /\ endsSpace (trim s) = false.
Proof.
  unfold trim, endsSpace. rewrite rev_involutive. split.
  - rewrite startsSpace_head, head_rev.
    unfold dropSpaces at 1.
    destruct (drop (runLength isSpace (rev (dropSpaces s)))
                (rev (dropSpaces s))) eqn:E; [reflexivity|].
    rewrite <- E, last_drop by (rewrite E; discriminate).
    rewrite <- head_rev, rev_involutive, <- startsSpace_head.
    apply startsSpace_dropSpaces.
  - apply startsSpace_dropSpaces.
Qed.

(** X13: the inner markup that [processIcon] takes from the optimiser
    output neither begins nor ends with white space, and trimming it
    again changes nothing. *)
Theorem stripSvgWrapper_trimmed (data : str) :
  startsSpace (stripSvgWrapper data) = false
  /\ endsSpace (stripSvgWrapper data) = false
  /\ trim (stripSvgWrapper data) = stripSvgWrapper data.
Proof.
  unfold stripSvgWrapper.
  set (s := replaceFirst reSvgClose [] (replaceFirst reSvgOpen [] data)).
  destruct (trim_ends s) as [Hs He]. repeat split; try assumption.
  unfold trim at 1. rewrite (dropSpaces_id _ Hs).
  unfold endsSpace in He. rewrite (dropSpaces_id _ He).
  apply rev_involutive.
Qed.

(** ** Colour normalization, again *)

Lemma colorPass_id name s :
  occursColor name s = false -> colorPass name s = s.
Proof.
  induction s as [|c s IH]; intros H; [apply colorPass_nil|].
  cbn [occursColor] in H.
  destruct (reColorAttr name None (c :: s)) eqn:E; [discriminate|].
  rewrite colorPass_copy by exact E. rewrite IH by exact H. reflexivity.
Qed.

(** X14: normalizing the colours twice gives what normalizing them once
    gives. *)
Theorem normalizeColors_idempotent (s : str) :
  normalizeColors (normalizeColors s) = normalizeColors s.
Proof.
  unfold normalizeColors at 1.
  rewrite (colorPass_id (js "fill"))
    by (apply normalizeColors_clean; left; reflexivity).
  apply colorPass_id, normalizeColors_clean. right. left. reflexivity.
Qed.

(** ** The keys of the registry *)





(** ** The command line *)

Section CommandLine.

Variable host : Host.
Variable cli : CliHost host.

Lemma loadConfig_Some config :
  loadConfig host cli = Some config ->
  inputDir host config <> [] /\ outputDir host config <> [].
Proof.
  unfold loadConfig. destruct (negb _); [discriminate|].
  destruct (readFileSync host _); [|discriminate].
  destruct (jsonParse cli _) as [parsed|]; [|discriminate].
  destruct (inputDir host parsed) eqn:Ei; [discriminate|].
  destruct (outputDir host parsed) eqn:Eo; [discriminate|].
  cbn [isEmpty orb]. intros [= <-]. rewrite Ei, Eo. split; discriminate.
Qed.

(** X17: a configuration that [loadConfig] returns names both
    directories, so the configuration error of [generate] is never
    raised under [main]; the command exits with status 1 exactly when no
    configuration is loaded, or the input directory holds no [.svg]
    entry, or no icon is processed. *)
Theorem main_exit :
  (forall config,
     loadConfig host cli = Some config ->
     generate host config <> ConfigurationError)
  /\ (main host cli = ExitOne
      <-> loadConfig host cli = None
          \/ exists config,
               loadConfig host cli = Some config
               /\ (generate host config = NoSvgFiles
                   \/ generate host config = NoIconProcessed)).
Proof.
  assert (Hno : forall config,
            loadConfig host cli = Some config ->
            generate host config <> ConfigurationError).
  { intros config H. apply loadConfig_Some in H as [Hi Ho].
    exact (generate_given host config Hi Ho). }
  split; [exact Hno|]. unfold main.
  destruct (loadConfig host cli) as [config|]; [|split; auto].
  specialize (Hno config eq_refl).
  destruct (generate host config) eqn:E; try congruence.
  - split; [intros _; right; exists config; auto | reflexivity].
  - split; [intros _; right; exists config; auto | reflexivity].
  - split; [discriminate|].
    intros [H|(config' & H & [H'|H'])]; [discriminate| |];
      injection H as <-; congruence.
Qed.

End CommandLine.

Lemma main_exit_witness :
  generate twoIconsHost (exampleConfig twoIconsHost) <> ConfigurationError.
Proof.
  apply (proj1 (main_exit twoIconsHost (exampleCli twoIconsHost))).
  vm_compute. reflexivity.
Defined.

(** ** The translation keeps the colours normalized *)

Lemma mismatch_startsWithCI k w s :
  mismatch k w = true -> startsWithCI w s = true -> startsWithCI k s = false.
Proof.
  revert w s; induction k as [|a k IH]; intros [|b w] [|c s] Hm Hw;
    try discriminate; try reflexivity.
  cbn [mismatch startsWithCI] in *. apply andb_true_iff in Hw as [Hbc Hw].
  destruct (eqCI a c) eqn:Hac; [|reflexivity]. cbn [andb].
  assert (Hab : eqCI a b = true).
  { rewrite (eqCI_sym b c) in Hbc. unfold eqCI in *.
    rewrite N.eqb_eq in *. congruence. }
  rewrite Hab in Hm. cbn [negb orb] in Hm. exact (IH w s Hm Hw).
Qed.

Lemma opening_patternAt name s :
  startsWithCI (name ++ [EQUALS; DQUOTE]) s = true -> patternAt name s = true.
Proof.
  unfold patternAt. revert s; induction name as [|a name IH]; intros s H.
  - destruct s as [|e s]; [discriminate|]. cbn [app startsWithCI] in H.
    apply andb_true_iff in H as [He _]. cbn [startsWithCI length drop andb].
    rewrite lookaheadEquals_cons.
    assert (e = EQUALS) by (revert He; cu_lia). subst e. reflexivity.
  - destruct s as [|c s]; [discriminate|]. cbn [app startsWithCI] in H.
    apply andb_true_iff in H as [Hac H]. cbn [startsWithCI length drop].
    rewrite Hac. exact (IH s H).
Qed.

Lemma hasQuote_app x t : hasQuote (x ++ t) = hasQuote x || hasQuote t.
Proof. unfold hasQuote. apply existsb_app. Qed.

Lemma hasQuote_notQuote x : forallb notQuote x = true -> hasQuote x = false.
Proof.
  unfold hasQuote. induction x as [|c x IH]; [reflexivity|]. simpl.
  unfold notQuote at 1. intros H. apply andb_true_iff in H as [Hc H].
  apply negb_true_iff in Hc. rewrite Hc. auto.
Qed.

Lemma length_opening_tail (x : str) :
  length (x ++ [EQUALS; DQUOTE]) = S (S (length x)).
Proof. rewrite length_app. simpl. lia. Qed.

Section TranslationColors.

(** An entry of the table and a colour name. *)
Variables kebab camel name : str.
Variables h h' n0 : cu.
Variables kebab' camel' name' : str.
Hypothesis kebab_head : kebab = h :: kebab'.
Hypothesis camel_head : camel = h' :: camel'.
Hypothesis name_head : name = n0 :: name'.
Hypothesis heads : eqCI h h' = true.
Hypothesis opening_avoids : avoids h (name' ++ [EQUALS; DQUOTE]) = true.
Hypothesis none_mismatch : allMismatch kebab (js "none") = true.
Hypothesis currentColor_mismatch :
  allMismatch kebab (js "currentColor") = true.
Hypothesis camel_notQuote : forallb notQuote camel = true.
Hypothesis kebab_plain : plainUnits kebab = true.
Hypothesis camel_plain : plainUnits camel = true.
Hypothesis name_plain : plainUnits name = true.
Hypothesis camel_suffix : noSuffixIs camel name = true.

Lemma kebab_ne : kebab <> [].
Proof. rewrite kebab_head. discriminate. Qed.

Lemma camel_ne : camel <> [].
Proof. rewrite camel_head. discriminate. Qed.

Lemma translate_match_head prev c s n :
  reAttribute kebab prev (c :: s) = Some n -> eqCI h c = true.
Proof.
  rewrite reAttribute_spec, kebab_head, patternAt_cons.
  destruct (eqCI h c); [reflexivity|].
  rewrite andb_false_l, andb_false_r. discriminate.
Qed.

(** At a match, what the scan goes on with. *)
Lemma translate_replace prev c s n :
  reAttribute kebab prev (c :: s) = Some n ->
  exists prev',
    pass kebab camel prev (c :: s)
    = camel ++ pass kebab camel (Some prev') (drop (length kebab') s)
    /\ lookaheadEquals (drop (length kebab') s) = true.
Proof.
  intros H. pose proof H as H'. rewrite reAttribute_spec in H'.
  destruct (wordBoundary prev (c :: s) && patternAt kebab (c :: s)) eqn:E;
    [|discriminate].
  injection H' as <-. apply andb_true_iff in E as [_ E].
  unfold patternAt in E. apply andb_true_iff in E as [Hstart Hlook].
  apply startsWithCI_length in Hstart. rewrite kebab_head in Hstart, Hlook.
  cbn [length drop] in Hstart, Hlook.
  destruct (prevAfter_Some (length kebab') c s) as [prev' Hprev].
  exists prev'. split; [|exact Hlook].
  unfold pass. rewrite replaceAllFrom_cons, H, kebab_head.
  cbn [length]. rewrite <- kebab_head.
  rewrite replaceAllFrom_skip by (clear -Hstart; lia). rewrite Hprev.
  reflexivity.
Qed.

(** A text without the first letter of the attribute name that is read
    in the output of the pass is read in its input, and the pass goes on
    after it. *)
Lemma translate_startsWithCI p : forall prev s,
  avoids h p = true ->
  startsWithCI p (pass kebab camel prev s) = true ->
  startsWithCI p s = true
  /\ drop (length p) (pass kebab camel prev s)
     = pass kebab camel (prevAfter (length p) prev s) (drop (length p) s).
Proof.
  induction p as [|a p IH]; intros prev s Hp H.
  - split; [reflexivity|]. destruct s; reflexivity.
  - simpl in Hp. apply andb_true_iff in Hp as [Ha Hp].
    destruct s as [|c s];
      [rewrite (pass_nil kebab camel kebab_plain kebab_ne) in H;
       discriminate|].
    destruct (reAttribute kebab prev (c :: s)) as [n|] eqn:E.
    + exfalso. destruct (translate_replace prev c s n E) as (prev' & Hpass & _).
      rewrite Hpass, camel_head in H. cbn [app startsWithCI] in H.
      apply andb_true_iff in H as [H _].
      apply negb_true_iff in Ha. unfold eqCI in *.
      rewrite N.eqb_eq in *. rewrite N.eqb_neq in Ha. congruence.
    + rewrite (pass_copy kebab camel prev c s E) in H |- *.
      cbn [startsWithCI length drop prevAfter] in H |- *.
      apply andb_true_iff in H as [-> H]. cbn [andb].
      exact (IH (Some c) s Hp H).
Qed.

(** A word in which no match can start is copied. *)
Lemma translate_keeps_word w : forall prev s,
  allMismatch kebab w = true -> startsWithCI w s = true ->
  startsWithCI w (pass kebab camel prev s) = true.
Proof.
  induction w as [|a w IH]; intros prev s Hw H; [reflexivity|].
  cbn [allMismatch] in Hw. apply andb_true_iff in Hw as [Hm Hw].
  pose proof (mismatch_startsWithCI kebab (a :: w) s Hm H) as Hno.
  destruct s as [|c s]; [discriminate|].
  rewrite pass_copy.
  - cbn [startsWithCI] in H |- *. apply andb_true_iff in H as [-> H].
    exact (IH (Some c) s Hw H).
  - unfold reAttribute. rewrite Hno, andb_false_r. reflexivity.
Qed.

Lemma translate_keepsColor prev s :
  keepsColor s = true -> keepsColor (pass kebab camel prev s) = true.
Proof.
  unfold keepsColor. intros H. apply orb_true_iff in H.
  apply orb_true_iff.
  destruct H as [H|H]; [left | right]; apply translate_keeps_word; assumption.
Qed.

(** A quote of the output comes from a quote of the input. *)
Lemma translate_hasQuote n : forall prev s,
  (length s <= n)%nat ->
  hasQuote (pass kebab camel prev s) = true -> hasQuote s = true.
Proof.
  induction n as [|n IH]; intros prev s Hn H.
  - destruct s; [|exfalso; clear -Hn; simpl in Hn; lia].
    rewrite (pass_nil kebab camel kebab_plain kebab_ne) in H. discriminate.
  - destruct s as [|c s];
      [rewrite (pass_nil kebab camel kebab_plain kebab_ne) in H;
       discriminate|].
    simpl in Hn.
    destruct (reAttribute kebab prev (c :: s)) as [k|] eqn:E.
    + destruct (translate_replace prev c s k E) as (prev' & Hpass & _).
      rewrite Hpass, hasQuote_app, (hasQuote_notQuote camel camel_notQuote)
        in H.
      cbn [orb] in H. apply IH in H; [|rewrite length_drop; clear -Hn; lia].
      cbn [hasQuote existsb]. apply orb_true_iff. right.
      exact (hasQuote_drop _ _ H).
    + rewrite (pass_copy kebab camel prev c s E) in H.
      cbn [hasQuote existsb] in H |- *. apply orb_true_iff in H.
      apply orb_true_iff. destruct H as [H|H]; [left; exact H|].
      right. apply (IH (Some c) s); [clear -Hn; lia | exact H].
Qed.

(** A colour attribute that starts at a copied code unit of the output
    is one of the input. *)
Lemma translate_color_copied c s n :
  reColorAttr name None (c :: pass kebab camel (Some c) s) = Some n ->
  exists n', reColorAttr name None (c :: s) = Some n'.
Proof.
  intros H. apply reColorAttr_Some in H as (Hstart & Hkeep & Hquote & _).
  rewrite opening_length in Hkeep, Hquote. unfold opening in Hstart.
  rewrite name_head in Hstart, Hkeep, Hquote |- *.
  cbn [app startsWithCI drop length] in Hstart, Hkeep, Hquote.
  apply andb_true_iff in Hstart as [Hoc Hstart].
  apply translate_startsWithCI in Hstart as [Hstart Hdrop];
    [|exact opening_avoids].
  rewrite length_opening_tail in Hdrop.
  rewrite Hdrop in Hkeep, Hquote.
  apply (translate_hasQuote (length (drop (S (S (length name'))) s)))
    in Hquote; [|apply le_n].
  unfold reColorAttr. cbn [app startsWithCI].
  rewrite Hoc, Hstart. cbn [andb length drop].
  rewrite length_opening_tail.
  destruct (keepsColor (drop (S (S (length name'))) s)) eqn:Hk.
  - rewrite translate_keepsColor in Hkeep by exact Hk. discriminate.
  - rewrite runLength_notQuote, Hquote. eauto.
Qed.

(** No colour attribute starts in the inserted name. *)
Lemma translate_color_inserted t tail : forall x,
  plainUnits x = true -> noSuffixIs x name = true -> stopUnit t = true ->
  occursColor name (x ++ t :: tail) = occursColor name (t :: tail).
Proof.
  induction x as [|d x IH]; intros Hx Hsuf Ht; [reflexivity|].
  pose proof Hx as Hx'. simpl in Hx', Hsuf.
  apply andb_true_iff in Hx' as [_ Hx'].
  apply andb_true_iff in Hsuf as [Hnot Hsuf].
  cbn [app occursColor].
  destruct (reColorAttr name None (d :: x ++ t :: tail)) as [n|] eqn:E;
    [|exact (IH Hx' Hsuf Ht)].
  exfalso. apply reColorAttr_Some in E as (Hstart & _).
  apply opening_patternAt in Hstart.
  apply (patternAt_inserted name (d :: x) t tail name_plain Hx Ht) in Hstart.
  rewrite equalCI_sym, Hstart in Hnot. discriminate.
Qed.

(** The pass of the entry creates no colour attribute to rewrite. *)
Lemma translate_occursColor n : forall prev s,
  (length s <= n)%nat ->
  occursColor name s = false ->
  occursColor name (pass kebab camel prev s) = false.
Proof.
  induction n as [|n IH]; intros prev s Hn Hs.
  - destruct s; [|exfalso; clear -Hn; simpl in Hn; lia].
    rewrite (pass_nil kebab camel kebab_plain kebab_ne). reflexivity.
  - destruct s as [|c s];
      [rewrite (pass_nil kebab camel kebab_plain kebab_ne); reflexivity|].
    simpl in Hn.
    destruct (reAttribute kebab prev (c :: s)) as [k|] eqn:E.
    + destruct (translate_replace prev c s k E) as (prev' & Hpass & Hlook).
      assert (Hrest : occursColor name
                        (pass kebab camel (Some prev') (drop (length kebab') s))
                      = false).
      { apply IH; [rewrite length_drop; clear -Hn; lia|].
        apply (occursColor_drop name (S (length kebab')) (c :: s) Hs). }
      rewrite <- (pass_lookahead kebab camel kebab_plain camel_plain
                    kebab_ne camel_ne (Some prev')) in Hlook.
      apply lookaheadEquals_head in Hlook as (t & tail & Htail & Ht).
      rewrite Hpass, Htail.
      rewrite (translate_color_inserted t tail camel camel_plain
                 camel_suffix Ht).
      rewrite <- Htail. exact Hrest.
    + rewrite (pass_copy kebab camel prev c s E). cbn [occursColor].
      cbn [occursColor] in Hs.
      destruct (reColorAttr name None (c :: pass kebab camel (Some c) s))
        eqn:E2.
      * exfalso. apply translate_color_copied in E2 as [n' E2].
        rewrite E2 in Hs. discriminate.
      * apply IH; [clear -Hn; lia|].
        destruct (reColorAttr name None (c :: s)); [discriminate | exact Hs].
Qed.

End TranslationColors.

Lemma colors_ok :
  forallb (fun name => forallb (entryColorOK name) SVG_ATTR_MAP) colorNames
  = true.
Proof. vm_compute. reflexivity. Qed.

Lemma translateEntry_occursColor name entry s :
  In name colorNames -> In entry SVG_ATTR_MAP ->
  occursColor name s = false ->
  occursColor name (translateEntry s entry) = false.
Proof.
  intros Hname Hentry Hs. pose proof colors_ok as H.
  rewrite forallb_forall in H. specialize (H name Hname).
  rewrite forallb_forall in H. specialize (H entry Hentry).
  unfold entryColorOK in H.
  destruct entry as [kebab camel]. cbn [fst snd] in H.
  destruct kebab as [|h kebab']; [discriminate|].
  destruct camel as [|h' camel']; [discriminate|].
  destruct name as [|n0 name']; [discriminate|].
  rewrite !andb_true_iff in H.
  destruct H as [[[[[[[[? ?] ?] ?] ?] ?] ?] ?] ?].
  unfold translateEntry. cbn [fst snd].
  apply (translate_occursColor (h :: kebab') (h' :: camel') (n0 :: name')
           h h' n0 kebab' camel' name') with (n := length s);
    auto.
Qed.

Lemma translate_occursColor_all name todo : forall s,
  In name colorNames ->
  (forall entry, In entry todo -> In entry SVG_ATTR_MAP) ->
  occursColor name s = false ->
  occursColor name (foldl translateEntry s todo) = false.
Proof.
  induction todo as [|e todo IH]; intros s Hname Hsub Hs; [exact Hs|].
  cbn [foldl].
  apply IH; [exact Hname | intros x Hx; apply Hsub; right; exact Hx|].
  apply translateEntry_occursColor; [exact Hname | apply Hsub; left; reflexivity
                                    | exact Hs].
Qed.

(** X15: what the colour normalization and the attribute translation of
    [processIcon] give together is changed by neither of them, so that
    the two stages applied to their own output give it back. *)
Theorem rewriting_stable (s : str) :
  let out := convertSvgAttributesToCamelCase (normalizeColors s) in
  normalizeColors out = out
  /\ convertSvgAttributesToCamelCase out = out
  /\ convertSvgAttributesToCamelCase (normalizeColors out) = out.
Proof.
  intros out.
  assert (Hcolors : normalizeColors out = out).
  { unfold normalizeColors.
    assert (Hclean : forall name, In name colorNames ->
                                  occursColor name out = false).
    { intros name Hname. unfold out. rewrite convert_foldl.
      apply translate_occursColor_all; [exact Hname | auto|].
      apply normalizeColors_clean, Hname. }
    rewrite (colorPass_id (js "fill") out)
      by (apply Hclean; left; reflexivity).
    apply colorPass_id, Hclean. right. left. reflexivity. }
  assert (Hattrs : convertSvgAttributesToCamelCase out = out).
  { unfold out. rewrite !convert_foldl. apply translate_id; [auto|].
    intros entry Hin.
    apply (translate_clean SVG_ATTR_MAP [] (normalizeColors s)); auto.
    intros ? []. }
  split; [exact Hcolors|]. split; [exact Hattrs|].
  rewrite Hcolors. exact Hattrs.
Qed.

(** ** JavaScript output *)

Lemma includes_app_r lit a b :
  includes lit b = true -> includes lit (a ++ b) = true.
Proof.
  intros H. induction a as [|c a IH]; [exact H|].
  cbn [app includes]. rewrite IH. apply orb_true_r.
Qed.

Lemma includes_here lit t : includes lit (lit ++ t) = true.
Proof.
  destruct (lit ++ t) eqn:E; cbn [includes]; rewrite <- E, startsWith_self;
    reflexivity.
Qed.

Section JavaScript.

Variable host : Host.

Lemma registry_index_export_type (icons : list ProcessedIcon)
    (config : SvgifyConfig host) :
  includesRegistry (modeOf host config) = true ->
  includes (js "export type { IconProps } from './Icon';")
    (generateIndexFile host icons config) = true.
Proof.
  intros H.
  assert (E : generateIndexFile host icons config
              = (js "// Auto-generated file - DO NOT EDIT" ++ [NEWLINE]
                 ++ js "// Registry exports" ++ [NEWLINE]
                 ++ js "export { Icon } from './Icon';" ++ [NEWLINE])
                ++ js "export type { IconProps } from './Icon';"
                ++ drop (37 + 20 + 31 + 40)
                     (generateIndexFile host icons config)).
  { unfold generateIndexFile. rewrite H.
    destruct (includesDirect (modeOf host config)); reflexivity. }
  rewrite E. apply includes_app_r, includes_here.
Qed.

(** X18: with [typescript: false] a completed run writes each component
    to a [.jsx] file and the index, last, to [index.js]; the index is
    built without regard to that setting, and in the modes with a
    registry it holds the [export type] lines of the registry export
    group. *)
Theorem generate_javascript_index (userConfig : SvgifyConfig host)
    (writes : list Write) (command : option (list N)) :
  generate host userConfig = Completed writes command ->
  typescript host userConfig = Some false ->
  let config := mergeDefaults host userConfig in
  let icons := processAll host (svgFilesOf host config) config in
  let out := pathJoin host (outputDir host userConfig) in
  (forall icon, In icon icons ->
     In (out (componentName icon ++ js ".jsx"),
         generateIconComponent host icon config) writes)
  /\ last writes
     = Some (out (js "index.js"), generateIndexFile host icons config)
  /\ (includesRegistry (modeOf host config) = true ->
      includes (js "export type { IconProps } from './Icon';")
        (generateIndexFile host icons config) = true).
Proof.
  intros Hrun Hts config icons out. apply generate_completed in Hrun.
  fold (svgFilesOf host (mergeDefaults host userConfig)) in Hrun.
  fold config in Hrun. fold icons in Hrun.
  assert (Hext : getFileExtension (isTS host config) = js "jsx")
    by (unfold config, isTS; cbn [mergeDefaults typescript];
        rewrite Hts; reflexivity).
  unfold emit in Hrun. rewrite Hext in Hrun.
  split; [|split].
  - intros icon Hin. rewrite Hrun. apply in_or_app. left.
    apply in_map_iff. exists icon. split; [reflexivity | exact Hin].
  - rewrite Hrun, !app_assoc, last_snoc. reflexivity.
  - apply registry_index_export_type.
Qed.

End JavaScript.

Lemma generate_javascript_index_witness :
  last (writesOf (generate twoIconsHost (javascriptConfig twoIconsHost)))
  = Some (js "./src/icons/index.js",
          generateIndexFile twoIconsHost
            (processAll twoIconsHost
               (svgFilesOf twoIconsHost
                  (mergeDefaults twoIconsHost (javascriptConfig twoIconsHost)))
               (mergeDefaults twoIconsHost (javascriptConfig twoIconsHost)))
            (mergeDefaults twoIconsHost (javascriptConfig twoIconsHost))).
Proof.
  apply (generate_javascript_index twoIconsHost (javascriptConfig twoIconsHost)
           (writesOf (generate twoIconsHost (javascriptConfig twoIconsHost)))
           None).
  - vm_compute. reflexivity.
  - reflexivity.
Defined.
